(** * kuangshan: shift reports of a lead/zinc/silver concentrator

    A shallow embedding of the Python sources

      - [workshop_model.py]    the balance calculation of one shift,
      - [import_accounting.py] the extractor of the three-shifts-per-sheet
                               accounting tables and its date resolver,
      - [import_august.py]     the extractor of the one-shift-per-file reports,

    and the properties of the written specification stated over it.

    Python's [float] is IEEE 754 binary64.  It is modelled by [spec_float]
    with precision 53 and maximal exponent 1024, so that rounding, signed
    zeros, infinities and NaN are those of the interpreter.  A Python [str]
    is a sequence of Unicode code points. *)

From Stdlib Require Import ZArith NArith List Bool Lia SpecFloat QArith Qabs.
From Stdlib Require Import Ascii String Reals Lra.
Import ListNotations.

Local Open Scope Z_scope.

(** ** Python floats *)

Module Float.

Definition prec : Z := 53.
Definition emax : Z := 1024.

Definition float : Type := spec_float.

(** The values a Python float can take: every mantissa is in canonical
    position and the exponent is in range. *)
Definition is_float (x : float) : Prop := valid_binary prec emax x = true.

Definition is_nan (x : float) : bool :=
  match x with S754_nan => true | _ => false end.

Definition is_inf (x : float) : bool :=
  match x with S754_infinity _ => true | _ => false end.

(** [math.isfinite] *)
Definition is_finite (x : float) : bool :=
  match x with S754_zero _ | S754_finite _ _ _ => true | _ => false end.

Definition mul : float -> float -> float := SFmul prec emax.
Definition div : float -> float -> float := SFdiv prec emax.
Definition sub : float -> float -> float := SFsub prec emax.

(** [x < y], [x <= y], [x > y], [x == y]; each is [False] when an operand
    is NaN. *)
Definition ltb (x y : float) : bool := SFltb x y.
Definition leb (x y : float) : bool := SFleb x y.
Definition gtb (x y : float) : bool := SFltb y x.
Definition eqb (x y : float) : bool := SFeqb x y.

(** [float(n)] for a Python [int]: the nearest float, ties to even; the
    result is an infinity where Python raises [OverflowError]. *)
Definition of_Z (n : Z) : float := binary_normalize prec emax n 0 false.

(** The float denoted by the decimal literal [n / 10^k], for [n] and
    [10^k] below [2^53]: both are floats, and their quotient is rounded
    once. *)
Definition of_decimal (n : Z) (k : Z) : float := div (of_Z n) (of_Z (10 ^ k)).

Definition zero : float := S754_zero false.
Definition nan : float := S754_nan.
Definition inf : float := S754_infinity false.

(** The rational number a finite float stands for; [0] for the others. *)
Definition to_Q (x : float) : Q :=
  match x with
  | S754_finite s m e =>
      let v := match e with
               | Zneg p => Qmake (Zpos m) (2 ^ p)
               | _ => inject_Z (Zpos m * 2 ^ e)
               end in
      if s then Qopp v else v
  | _ => 0%Q
  end.

End Float.

Import Float.

Declare Scope float_scope.
Delimit Scope float_scope with float.
Bind Scope float_scope with float.
Infix "*" := mul : float_scope.
Infix "/" := div : float_scope.
Infix "-" := sub : float_scope.
Infix ">?" := gtb (at level 70) : float_scope.
Infix "<=?" := leb : float_scope.
Infix "=?" := eqb : float_scope.

(** ** Python strings *)

(** A [str] is a list of code points. *)
Definition str : Type := list N.

(** The [str] of an ASCII literal. *)
Definition lit (s : string) : str := List.map N_of_ascii (list_ascii_of_string s).

Definition str_eqb (a b : str) : bool :=
  if list_eq_dec N.eq_dec a b then true else false.

Fixpoint starts_with (pre s : str) : bool :=
  match pre, s with
  | [], _ => true
  | p :: pre', c :: s' => N.eqb p c && starts_with pre' s'
  | _ :: _, [] => false
  end.

(** [str.endswith] *)
Definition ends_with (suf s : str) : bool := starts_with (rev suf) (rev s).

(** [sub in s] *)
Fixpoint contains (sub s : str) : bool :=
  starts_with sub s ||
  match s with
  | [] => false
  | _ :: s' => contains sub s'
  end.

(** The decimal numeral of a natural number, as [str(n)] writes it. *)
Fixpoint numeral_aux (fuel : nat) (n : N) : str :=
  match fuel with
  | O => []
  | S fuel' =>
      if (n <? 10)%N then [(48 + n)%N]
      else numeral_aux fuel' (n / 10)%N ++ [(48 + n mod 10)%N]
  end.

Definition numeral (n : N) : str := numeral_aux (S (N.to_nat (N.log2 n))) n.

(** [format(n, "02d")]: the numeral, padded with zeros to width two. *)
Definition format_02d (n : N) : str :=
  let s := numeral n in
  List.repeat 48%N (2 - List.length s) ++ s.

(** ** The interpreter

    What the sources take from the Python runtime and its Unicode tables:
    the decimal digits ([\d] of a [str] pattern, and the digits [int]
    reads), the white space ([\s]), the limit [int] puts on the length of
    a numeral (0 disables it; the interpreter accepts no other limit under
    640), and [float] of a [str].  The tables of every
    CPython build agree on ASCII and hold neither a digit nor a white space
    among the CJK unified ideographs. *)

Definition ascii_decimal (c : N) : option N :=
  if ((48 <=? c) && (c <=? 57))%N then Some (c - 48)%N else None.

Definition ascii_space (c : N) : bool :=
  (((9 <=? c) && (c <=? 13)) || ((28 <=? c) && (c <=? 32)))%N.

Record runtime : Type := mkRuntime {
  decimal : N -> option N;
  space : N -> bool;
  int_max_str_digits : N;
  float_of_str : str -> option float;
  decimal_ascii : forall c, (c < 128)%N -> decimal c = ascii_decimal c;
  space_ascii : forall c, (c < 128)%N -> space c = ascii_space c;
  decimal_cjk : forall c, (19968 <= c <= 40959)%N -> decimal c = None;
  space_cjk : forall c, (19968 <= c <= 40959)%N -> space c = false;
  int_limit_threshold : (int_max_str_digits = 0 \/ 640 <= int_max_str_digits)%N
}.

Inductive exn : Type := IndexError | ValueError | TypeError | OverflowError | IOError.

(** The outcome of a call that may raise. *)
Inductive result (A : Type) : Type :=
| Ok (a : A)
| Raise (e : exn).
Arguments Ok {A} a.
Arguments Raise {A} e.

Definition bind {A B : Type} (r : result A) (k : A -> result B) : result B :=
  match r with
  | Ok a => k a
  | Raise e => Raise e
  end.

Notation "x <- r ;;; k" := (bind r (fun x => k))
  (at level 62, r at next level, right associativity).

Definition is_digit (rt : runtime) (c : N) : bool :=
  match decimal rt c with Some _ => true | None => false end.

Definition digit_value (rt : runtime) (c : N) : N :=
  match decimal rt c with Some d => d | None => 0%N end.

(** [int(s)] for a [str] of decimal digits. *)
Definition py_int (rt : runtime) (s : str) : result N :=
  if (negb (int_max_str_digits rt =? 0) &&
      (int_max_str_digits rt <? N.of_nat (List.length s)))%N
  then Raise ValueError
  else Ok (List.fold_left (fun acc c => (10 * acc + digit_value rt c)%N) s 0%N).

(** ** workshop_model.py *)

Module Workshop.

(** Objects are mutable and reached through references.  A heap gives the
    current state of every [ProcessStream], [MetalContent] and
    [PerformanceMetrics] object; two attributes holding the same reference
    share one object. *)
Definition ref : Type := nat.

Record MetalContent : Type := mkMetalContent {
  pb_ton : float;
  zn_ton : float;
  ag_kg : float
}.

Record ProcessStream : Type := mkProcessStream {
  wet_weight_ton : float;
  moisture_pct : float;
  pb_grade_pct : float;
  zn_grade_pct : float;
  ag_grade_gpt : float;
  dry_weight_ton : float;
  metal_content : ref
}.

Record PerformanceMetrics : Type := mkPerformanceMetrics {
  yield_pct : float;
  recovery_pb_pct : float;
  recovery_zn_pct : float;
  recovery_ag_pct : float;
  enrichment_ratio_pb : float
}.

Record WorkshopShiftEntry : Type := mkWorkshopShiftEntry {
  shift_name : str;
  raw_ore : ref;
  concentrate : ref;
  tailings : option ref;
  performance : ref
}.

Record heap : Type := mkHeap {
  streams : ref -> ProcessStream;
  metals : ref -> MetalContent;
  perfs : ref -> PerformanceMetrics
}.

(** The dataclass defaults. *)
Definition default_metal : MetalContent := mkMetalContent zero zero zero.
Definition default_perf : PerformanceMetrics :=
  mkPerformanceMetrics zero zero zero zero zero.

Definition upd {A : Type} (f : ref -> A) (r : ref) (v : A) : ref -> A :=
  fun r' => if Nat.eqb r' r then v else f r'.

(** Attribute assignments, one per assigned attribute of the source. *)
Definition set_dry_weight_ton (s : ref) (v : float) (h : heap) : heap :=
  let o := streams h s in
  mkHeap (upd (streams h) s
            (mkProcessStream (wet_weight_ton o) (moisture_pct o) (pb_grade_pct o)
               (zn_grade_pct o) (ag_grade_gpt o) v (metal_content o)))
         (metals h) (perfs h).

Definition set_pb_ton (m : ref) (v : float) (h : heap) : heap :=
  let o := metals h m in
  mkHeap (streams h) (upd (metals h) m (mkMetalContent v (zn_ton o) (ag_kg o))) (perfs h).

Definition set_zn_ton (m : ref) (v : float) (h : heap) : heap :=
  let o := metals h m in
  mkHeap (streams h) (upd (metals h) m (mkMetalContent (pb_ton o) v (ag_kg o))) (perfs h).

Definition set_ag_kg (m : ref) (v : float) (h : heap) : heap :=
  let o := metals h m in
  mkHeap (streams h) (upd (metals h) m (mkMetalContent (pb_ton o) (zn_ton o) v)) (perfs h).

Definition set_yield_pct (p : ref) (v : float) (h : heap) : heap :=
  let o := perfs h p in
  mkHeap (streams h) (metals h)
    (upd (perfs h) p (mkPerformanceMetrics v (recovery_pb_pct o) (recovery_zn_pct o)
                        (recovery_ag_pct o) (enrichment_ratio_pb o))).

Definition set_recovery_pb_pct (p : ref) (v : float) (h : heap) : heap :=
  let o := perfs h p in
  mkHeap (streams h) (metals h)
    (upd (perfs h) p (mkPerformanceMetrics (yield_pct o) v (recovery_zn_pct o)
                        (recovery_ag_pct o) (enrichment_ratio_pb o))).

Definition set_recovery_zn_pct (p : ref) (v : float) (h : heap) : heap :=
  let o := perfs h p in
  mkHeap (streams h) (metals h)
    (upd (perfs h) p (mkPerformanceMetrics (yield_pct o) (recovery_pb_pct o) v
                        (recovery_ag_pct o) (enrichment_ratio_pb o))).

Definition set_recovery_ag_pct (p : ref) (v : float) (h : heap) : heap :=
  let o := perfs h p in
  mkHeap (streams h) (metals h)
    (upd (perfs h) p (mkPerformanceMetrics (yield_pct o) (recovery_pb_pct o)
                        (recovery_zn_pct o) v (enrichment_ratio_pb o))).

Definition set_enrichment_ratio_pb (p : ref) (v : float) (h : heap) : heap :=
  let o := perfs h p in
  mkHeap (streams h) (metals h)
    (upd (perfs h) p (mkPerformanceMetrics (yield_pct o) (recovery_pb_pct o)
                        (recovery_zn_pct o) (recovery_ag_pct o) v)).

Definition f1 : float := of_Z 1.
Definition f100 : float := of_Z 100.
Definition f1000 : float := of_Z 1000.

(** Statements transform the heap; [s1 ;; s2] runs [s1] then [s2], and
    [when c s] is [if c: s]. *)
Definition stmt : Type := heap -> heap.

Definition seq (s1 s2 : stmt) : stmt := fun h => s2 (s1 h).

Definition when (c : heap -> bool) (s : stmt) : stmt :=
  fun h => if c h then s h else h.

Notation "s1 ;; s2" := (seq s1 s2) (at level 61, left associativity).

(** [ProcessStream.calculate_metrics(self)] *)
Definition calculate_metrics (self : ref) : stmt :=
  (fun h => set_dry_weight_ton self
              (wet_weight_ton (streams h self)
               * (f1 - moisture_pct (streams h self) / f100))%float h) ;;
  (fun h => set_pb_ton (metal_content (streams h self))
              (dry_weight_ton (streams h self)
               * (pb_grade_pct (streams h self) / f100))%float h) ;;
  (fun h => set_zn_ton (metal_content (streams h self))
              (dry_weight_ton (streams h self)
               * (zn_grade_pct (streams h self) / f100))%float h) ;;
  (fun h => set_ag_kg (metal_content (streams h self))
              (dry_weight_ton (streams h self)
               * ag_grade_gpt (streams h self) / f1000)%float h).

(** The attribute paths read by [calculate_performance]. *)
Definition raw (e : WorkshopShiftEntry) (h : heap) : ProcessStream :=
  streams h (raw_ore e).
Definition conc (e : WorkshopShiftEntry) (h : heap) : ProcessStream :=
  streams h (concentrate e).
Definition raw_metal (e : WorkshopShiftEntry) (h : heap) : MetalContent :=
  metals h (metal_content (raw e h)).
Definition conc_metal (e : WorkshopShiftEntry) (h : heap) : MetalContent :=
  metals h (metal_content (conc e h)).
Definition perf (e : WorkshopShiftEntry) (h : heap) : PerformanceMetrics :=
  perfs h (performance e).

(** [WorkshopShiftEntry.calculate_performance(self)] *)
Definition calculate_performance (self : WorkshopShiftEntry) : stmt :=
  calculate_metrics (raw_ore self) ;;
  calculate_metrics (concentrate self) ;;
  when (fun h => dry_weight_ton (raw self h) >? zero)%float
    ((fun h => set_yield_pct (performance self)
                 (dry_weight_ton (conc self h) / dry_weight_ton (raw self h)
                  * f100)%float h) ;;
     when (fun h => pb_ton (raw_metal self h) >? zero)%float
       (fun h => set_recovery_pb_pct (performance self)
                   (pb_ton (conc_metal self h) / pb_ton (raw_metal self h)
                    * f100)%float h) ;;
     when (fun h => zn_ton (raw_metal self h) >? zero)%float
       (fun h => set_recovery_zn_pct (performance self)
                   (zn_ton (conc_metal self h) / zn_ton (raw_metal self h)
                    * f100)%float h) ;;
     when (fun h => ag_kg (raw_metal self h) >? zero)%float
       (fun h => set_recovery_ag_pct (performance self)
                   (ag_kg (conc_metal self h) / ag_kg (raw_metal self h)
                    * f100)%float h) ;;
     when (fun h => pb_grade_pct (raw self h) >? zero)%float
       (fun h => set_enrichment_ratio_pb (performance self)
                   (pb_grade_pct (conc self h) / pb_grade_pct (raw self h))%float h)).

End Workshop.

(** ** The [re] module, on the fragment the sources use

    A pattern is a sequence of items: a character class with a greedy
    repetition, or a parenthesis of a capturing group.  [search] scans the
    start positions from the left; at each one the items are matched in
    order, a repetition taking the longest run first and giving characters
    back one at a time. *)

Module Re.

Inductive atom : Type :=
| Digit                (* \d *)
| Space                (* \s *)
| Any                  (* .  *)
| Chr (c : N).

Inductive item : Type :=
| Rep (a : atom) (lo : nat) (hi : option nat)
| Open
| Close.

Definition pattern : Type := list item.

Definition one (a : atom) : item := Rep a 1 (Some 1%nat).
Definition star (a : atom) : item := Rep a 0 None.
Definition plus (a : atom) : item := Rep a 1 None.
Definition exactly (n : nat) (a : atom) : item := Rep a n (Some n).

Definition accepts (rt : runtime) (a : atom) (c : N) : bool :=
  match a with
  | Digit => is_digit rt c
  | Space => space rt c
  | Any => negb (N.eqb c 10)
  | Chr c' => N.eqb c c'
  end.

(** The length of the longest prefix of [s] in class [a], at most [hi]. *)
Fixpoint run (rt : runtime) (a : atom) (hi : option nat) (s : str) : nat :=
  match s, hi with
  | _, Some O => O
  | c :: s', _ =>
      if accepts rt a c
      then S (run rt a (match hi with Some (S h) => Some h | _ => hi end) s')
      else O
  | [], _ => O
  end.

(** Try [f k], then [f (k - 1)], ... down to [f lo]; the first success. *)
Fixpoint backtrack {A : Type} (f : nat -> option A) (lo k : nat) : option A :=
  if (k <? lo)%nat then None
  else match f k with
       | Some r => Some r
       | None => match k with
                 | O => None
                 | S k' => backtrack f lo k'
                 end
       end.

(** [match_here rt p s i opens caps]: match [p] against [s], which starts
    at offset [i] of the subject; [opens] are the offsets of the groups
    still open and [caps] the spans of the closed ones, last first. *)
Fixpoint match_here (rt : runtime) (p : pattern) (s : str) (i : nat)
    (opens : list nat) (caps : list (nat * nat)) {struct p}
  : option (list (nat * nat)) :=
  match p with
  | [] => Some caps
  | Open :: p' => match_here rt p' s i (i :: opens) caps
  | Close :: p' =>
      match opens with
      | o :: opens' => match_here rt p' s i opens' ((o, i) :: caps)
      | [] => None
      end
  | Rep a lo hi :: p' =>
      backtrack (fun k => match_here rt p' (skipn k s) (i + k) opens caps)
        lo (run rt a hi s)
  end.

Definition substr (s : str) (span : nat * nat) : str :=
  firstn (snd span - fst span) (skipn (fst span) s).

Fixpoint search_from (rt : runtime) (p : pattern) (subject s : str) (i : nat)
  : option (list str) :=
  match match_here rt p s i [] [] with
  | Some caps => Some (List.map (substr subject) (rev caps))
  | None => match s with
            | [] => None
            | _ :: s' => search_from rt p subject s' (S i)
            end
  end.

(** [re.search(p, s)], as the groups of the match: [m.groups()]. *)
Definition search (rt : runtime) (p : pattern) (s : str) : option (list str) :=
  search_from rt p s s 0.

End Re.

(** ** posixpath *)

Module Path.

Definition slash : N := 47.

(** The part of [s] before its first slash, and the rest. *)
Fixpoint break_slash (s : str) : str * str :=
  match s with
  | [] => ([], [])
  | c :: s' =>
      if N.eqb c slash then ([], s)
      else let (a, b) := break_slash s' in (c :: a, b)
  end.

Fixpoint lstrip_slash (s : str) : str :=
  match s with
  | c :: s' => if N.eqb c slash then lstrip_slash s' else s
  | [] => []
  end.

(** [p[:i]] and [p[i:]] for [i = p.rfind('/') + 1]. *)
Definition split (p : str) : str * str :=
  let (tail, head) := break_slash (rev p) in (rev head, rev tail).

(** [os.path.basename] *)
Definition basename (p : str) : str := snd (split p).

(** [os.path.dirname]: the head, without its trailing slashes unless it
    is made of slashes only. *)
Definition dirname (p : str) : str :=
  let head := fst (split p) in
  match lstrip_slash (rev head) with
  | [] => head
  | stripped => rev stripped
  end.

End Path.

(** ** pandas cells *)

(** The value [df.iloc[r, c]] of a sheet read with [header=None]. *)
Inductive cell : Type :=
| CFloat (x : float)      (* a number; an empty cell is read as NaN *)
| CInt (n : Z)
| CBool (b : bool)
| CStr (s : str)
| CNone                   (* None or NaT *)
| CObj.                   (* a datetime, a time: neither null nor a number *)

Definition grid : Type := list (list cell).

(** [df.iloc[r, c]] for [r, c >= 0]: IndexError outside the frame. *)
Definition iloc (df : grid) (r c : nat) : result cell :=
  match nth_error df r with
  | Some row => match nth_error row c with
                | Some v => Ok v
                | None => Raise IndexError
                end
  | None => Raise IndexError
  end.

(** [pd.notnull(val)] *)
Definition notnull (v : cell) : bool :=
  match v with
  | CFloat x => negb (is_nan x)
  | CNone => false
  | _ => true
  end.

(** [float(val)] *)
Definition py_float (rt : runtime) (v : cell) : result float :=
  match v with
  | CFloat x => Ok x
  | CInt n => if is_inf (of_Z n) then Raise OverflowError else Ok (of_Z n)
  | CBool b => Ok (if b then of_Z 1 else zero)
  | CStr s => match float_of_str rt s with
              | Some x => Ok x
              | None => Raise ValueError
              end
  | CNone | CObj => Raise TypeError
  end.

(** A number of a JSON payload: the sources write both int and float
    values. *)
Inductive num : Type :=
| JInt (n : Z)
| JFloat (x : float).

Record raw_ore_json : Type := mkRawOre {
  r_wetWeight : num; r_moisture : num;
  r_pbGrade : num; r_znGrade : num; r_agGrade : num
}.

Record concentrate_json : Type := mkConcentrate {
  c_pbGrade : num; c_znGrade : num; c_agGrade : num
}.

Record tailings_json : Type := mkTailings {
  t_pbGrade : num; t_znGrade : num; t_agGrade : num; t_fineness : num
}.

Record payload : Type := mkPayload {
  shiftDate : str;
  shiftType : str;
  runTime : num;
  rawOre : raw_ore_json;
  concentrate : concentrate_json;
  tailings : tailings_json
}.

(** What [requests.post] does with a payload: a response with its status
    code and text, or an exception. *)
Inductive response : Type :=
| Status (code : Z) (text : str)
| RequestError.

(** What a run prints and sends, in order. *)
Inductive event : Type :=
| PrintSkipping (filepath : str)
| PrintProcessing (filepath : str) (date_str : str)
| PrintUploading (shift_name : str)
| PrintFailed (code : Z) (text : str)
| PrintRequestError
| PrintErrorParsing (filepath : str) (e : exn)
| Post (p : payload).

(** ** import_accounting.py *)

Module Accounting.

Record shift : Type := mkShift { name : str; col_start : nat }.

(** The shift names are the characters U+7532, U+4E59, U+4E19 followed
    by U+73ED. *)
Definition SHIFTS : list shift :=
  [ mkShift [30002; 29677]%N 1;
    mkShift [20057; 29677]%N 5;
    mkShift [19993; 29677]%N 9 ].

(** [(\d{4})(\d{2})(\d{2})] *)
Definition long_re : Re.pattern :=
  [Re.Open; Re.exactly 4 Re.Digit; Re.Close;
   Re.Open; Re.exactly 2 Re.Digit; Re.Close;
   Re.Open; Re.exactly 2 Re.Digit; Re.Close].

(** [(\d+)\.(\d+)] *)
Definition short_re : Re.pattern :=
  [Re.Open; Re.plus Re.Digit; Re.Close; Re.one (Re.Chr 46);
   Re.Open; Re.plus Re.Digit; Re.Close].

Definition dash : str := [45%N].

(** [get_date_from_filename(filepath)]; [Ok None] is the [None] result. *)
Definition get_date_from_filename (rt : runtime) (filepath : str)
  : result (option str) :=
  let filename := Path.basename filepath in
  let parent_dir := Path.basename (Path.dirname filepath) in
  let year := if contains (lit "2026") parent_dir then 2026%N else 2025%N in
  match Re.search rt long_re filename with
  | Some [y; m; d] =>
      let y := if str_eqb y (lit "2006") && N.eqb year 2026 then lit "2026" else y in
      Ok (Some (y ++ dash ++ m ++ dash ++ d))
  | _ =>
      match Re.search rt short_re filename with
      | Some [month; day] =>
          mo <- py_int rt month ;;;
          dy <- py_int rt day ;;;
          Ok (Some (numeral year ++ dash ++ format_02d mo ++ dash ++ format_02d dy))
      | _ => Ok None
      end
  end.

(** The helper [get_cell(r, c)] of [parse_file], closed over [df]. *)
Definition get_cell (rt : runtime) (df : grid) (r c : nat) : float :=
  match (val <- iloc df r c ;;;
         if notnull val then py_float rt val else Ok zero) with
  | Ok x => x
  | Raise _ => zero
  end.

(** One turn of the loop over [SHIFTS]. *)
Definition shift_events (rt : runtime) (post : payload -> response)
    (df : grid) (date_str : str) (sh : shift) : list event :=
  let col_pb := col_start sh in
  let col_ag := (col_start sh + 1)%nat in
  let col_val := (col_start sh + 3)%nat in
  let raw_pb := get_cell rt df 4 col_pb in
  if (raw_pb <=? zero)%float then []
  else
    let raw_ag := get_cell rt df 4 col_ag in
    let run_time := get_cell rt df 4 col_val in
    let conc_pb := get_cell rt df 5 col_pb in
    let conc_ag := get_cell rt df 5 col_ag in
    let wet_weight := get_cell rt df 5 col_val in
    let tail_pb := get_cell rt df 6 col_pb in
    let tail_ag := get_cell rt df 6 col_ag in
    let fineness := get_cell rt df 6 col_val in
    let moisture := get_cell rt df 7 col_val in
    let p :=
      mkPayload date_str (name sh) (JFloat run_time)
        (mkRawOre (JFloat wet_weight) (JFloat moisture) (JFloat raw_pb) (JInt 0)
           (JFloat raw_ag))
        (mkConcentrate (JFloat conc_pb) (JInt 0) (JFloat conc_ag))
        (mkTailings (JFloat tail_pb) (JInt 0) (JFloat tail_ag) (JFloat fineness)) in
    PrintUploading (name sh) :: Post p ::
    match post p with
    | Status code text =>
        if Z.eqb code 200 || Z.eqb code 201 then [] else [PrintFailed code text]
    | RequestError => [PrintRequestError]
    end.

(** [parse_file(filepath)], given what [pd.read_excel] returns for the
    file and what the reporting service answers. *)
Definition parse_file (rt : runtime) (post : payload -> response)
    (read_excel : result grid) (filepath : str) : list event :=
  match (df <- read_excel ;;;
         date_str <- get_date_from_filename rt filepath ;;;
         Ok (df, date_str)) with
  | Raise e => [PrintErrorParsing filepath e]
  | Ok (df, None) => [PrintSkipping filepath]
  | Ok (df, Some date_str) =>
      PrintProcessing filepath date_str ::
      flat_map (shift_events rt post df date_str) SHIFTS
  end.

(** The files [main] keeps of a directory listing. *)
Definition is_report (f : str) : bool :=
  ends_with (lit ".xlsx") f && negb (starts_with (lit "~") f).

End Accounting.

(** ** import_august.py *)

Module August.

(** The shift names: U+65E9, U+4E2D, U+665A followed by U+73ED. *)
Definition morning : str := [26089; 29677]%N.
Definition midday : str := [20013; 29677]%N.
Definition night : str := [26202; 29677]%N.

(** [SHIFT_MAP.get(shift_code, morning)] *)
Definition shift_of_code (code : str) : str :=
  if str_eqb code (lit "1") then morning
  else if str_eqb code (lit "2") then midday
  else if str_eqb code (lit "3") then night
  else morning.

(** The header pattern: year, month and day numbers followed by U+5E74,
    U+6708 and U+65E5, then a shift code between U+FF08 and U+73ED
    U+7EC4. *)
Definition header_re : Re.pattern :=
  [Re.Open; Re.plus Re.Digit; Re.Close; Re.star Re.Space; Re.one (Re.Chr 24180);
   Re.star Re.Space;
   Re.Open; Re.plus Re.Digit; Re.Close; Re.star Re.Space; Re.one (Re.Chr 26376);
   Re.star Re.Space;
   Re.Open; Re.plus Re.Digit; Re.Close; Re.star Re.Space; Re.one (Re.Chr 26085);
   Re.star Re.Any; Re.one (Re.Chr 65288); Re.star Re.Space;
   Re.Open; Re.plus Re.Digit; Re.Close; Re.star Re.Space;
   Re.one (Re.Chr 29677); Re.one (Re.Chr 32452)].

(** The helper [get_val(row, col)] of [parse_file], closed over [df]. *)
Definition get_val (rt : runtime) (df : grid) (row col : nat) : result float :=
  val <- iloc df row col ;;;
  match py_float rt val with
  | Ok x => Ok x
  | Raise _ => Ok zero
  end.

(** What [parse_file] prints. *)
Inductive note : Type :=
| Skipping (file_path header_text : str)
| ErrorParsing (file_path : str) (e : exn).

(** [str(val)]; [repr] stands for the text Python gives a value that is
    not a [str]. *)
Definition py_str (repr : cell -> str) (val : cell) : str :=
  match val with
  | CStr s => s
  | _ => repr val
  end.

(** [parse_file(file_path)], given what [pd.read_excel] returns for the
    file: the payload, or [None] with the line printed. *)
Definition parse_file (rt : runtime) (repr : cell -> str)
    (read_excel : result grid) (file_path : str) : payload + note :=
  match read_excel with
  | Raise e => inr (ErrorParsing file_path e)
  | Ok df =>
      match iloc df 1 0 with
      | Raise e => inr (ErrorParsing file_path e)
      | Ok head =>
          let header_text := py_str repr head in
          match Re.search rt header_re header_text with
          | Some [year; month; day; shift_code] =>
              match (mo <- py_int rt month ;;;
                     dy <- py_int rt day ;;;
                     let shift_date :=
                       year ++ lit "-" ++ format_02d mo ++ lit "-" ++ format_02d dy in
                     let shift_type := shift_of_code shift_code in
                     raw_pb <- get_val rt df 4 1 ;;;
                     raw_zn <- get_val rt df 4 2 ;;;
                     raw_ag <- get_val rt df 4 3 ;;;
                     conc_pb <- get_val rt df 5 1 ;;;
                     conc_zn <- get_val rt df 5 2 ;;;
                     conc_ag <- get_val rt df 5 3 ;;;
                     tail_pb <- get_val rt df 6 1 ;;;
                     tail_zn <- get_val rt df 6 2 ;;;
                     tail_ag <- get_val rt df 6 3 ;;;
                     Ok (mkPayload shift_date shift_type (JInt 8)
                           (mkRawOre (JInt 0) (JInt 0) (JFloat raw_pb) (JFloat raw_zn)
                              (JFloat raw_ag))
                           (mkConcentrate (JFloat conc_pb) (JFloat conc_zn)
                              (JFloat conc_ag))
                           (mkTailings (JFloat tail_pb) (JFloat tail_zn)
                              (JFloat tail_ag) (JInt 0)))) with
              | Ok p => inl p
              | Raise e => inr (ErrorParsing file_path e)
              end
          | _ => inr (Skipping file_path header_text)
          end
      end
  end.

End August.

(** ** A runtime to compute with

    Its tables are the ASCII ones, the limit of [int] is the default 4300,
    and its [float] reads an optional sign followed by [nan], [inf],
    [infinity] or a plain decimal numeral [digits] or [digits.digits]. *)

Module Demo.

Definition lower (c : N) : N :=
  if ((65 <=? c) && (c <=? 90))%N then (c + 32)%N else c.

(** The value of a numeral of ASCII digits. *)
Fixpoint decimal_numeral (s : str) (acc : N) : option N :=
  match s with
  | [] => Some acc
  | c :: s' =>
      match ascii_decimal c with
      | Some d => decimal_numeral s' (10 * acc + d)%N
      | None => None
      end
  end.

Fixpoint break_dot (s : str) : str * str :=
  match s with
  | [] => ([], [])
  | c :: s' =>
      if N.eqb c 46 then ([], s')
      else let (a, b) := break_dot s' in (c :: a, b)
  end.

(** The float nearest to [n / 10^k]. *)
Definition nearest (s : bool) (n : N) (k : nat) : float :=
  match n with
  | N0 => S754_zero s
  | Npos p => SFdiv prec emax (S754_finite s p 0)
                (S754_finite false (Z.to_pos (10 ^ Z.of_nat k)) 0)
  end.

Definition float_literal (s : str) : option float :=
  let '(neg, body) :=
    match s with
    | 45%N :: r => (true, r)
    | 43%N :: r => (false, r)
    | _ => (false, s)
    end in
  let word := List.map lower body in
  if str_eqb word (lit "nan") then Some nan
  else if str_eqb word (lit "inf") || str_eqb word (lit "infinity")
       then Some (S754_infinity neg)
  else
    let (ip, fp) := break_dot body in
    match ip ++ fp with
    | [] => None
    | ds => match decimal_numeral ds 0 with
            | Some n => Some (nearest neg n (List.length fp))
            | None => None
            end
    end.

Definition ascii_decimal_cjk (c : N) :
  (19968 <= c <= 40959)%N -> ascii_decimal c = None.
Proof.
  intros H. unfold ascii_decimal.
  destruct (N.leb_spec 48 c); destruct (N.leb_spec c 57); simpl; try reflexivity; lia.
Qed.

Definition ascii_space_cjk (c : N) :
  (19968 <= c <= 40959)%N -> ascii_space c = false.
Proof.
  intros H. unfold ascii_space.
  destruct (N.leb_spec 9 c); destruct (N.leb_spec c 13);
    destruct (N.leb_spec 28 c); destruct (N.leb_spec c 32); simpl; try reflexivity; lia.
Qed.

Definition default_limit : (4300 = 0 \/ 640 <= 4300)%N.
Proof. right. lia. Qed.

Definition rt : runtime :=
  mkRuntime ascii_decimal ascii_space 4300 float_literal
    (fun _ _ => eq_refl) (fun _ _ => eq_refl) ascii_decimal_cjk ascii_space_cjk
    default_limit.

End Demo.

(** * Notions used to state the properties *)

(** ** Values of floats *)

Module FloatSpec.

Definition bpow (e : Z) : R := powerRZ 2 e.

Definition F2R (m e : Z) : R := (IZR m * bpow e)%R.

(** [below X x]: [x] is a zero or a positive float of value at most [X]. *)
Definition below (X : R) (x : float) : Prop :=
  match x with
  | S754_zero _ => True
  | S754_finite false m e =>
      SpecFloat.bounded prec emax m e = true /\ (F2R (Zpos m) e <= X)%R
  | _ => False
  end.

Definition one_m : positive := 4503599627370496.

End FloatSpec.

(** ** Dates in file names *)

Module ReSpec.
Import Re.

(** The first [n] characters of [s] exist and are decimal digits. *)
Definition digits_at (rt : runtime) (n : nat) (s : str) : bool :=
  Nat.eqb (List.length (firstn n s)) n && forallb (is_digit rt) (firstn n s).

(** The short date [s] starts with: a longest run of digits, a dot, and
    the longest run of digits after it. *)
Definition short_at (rt : runtime) (s : str) : option (str * str) :=
  let k := run rt Digit None s in
  match k, skipn k s with
  | S _, 46%N :: r =>
      match run rt Digit None r with
      | S k2 => Some (firstn k s, firstn (S k2) r)
      | O => None
      end
  | _, _ => None
  end.

(** The [n] characters of [s] from offset [k]. *)
Definition window (s : str) (k n : nat) : str := firstn n (skipn k s).

(** A character on which every runtime agrees with the ASCII tables: an
    ASCII character or a CJK unified ideograph. *)
Definition known_char (c : N) : bool :=
  ((c <? 128) || ((19968 <=? c) && (c <=? 40959)))%N.

Definition known (s : str) : bool := forallb known_char s.

(** A canonical date: four digits, a hyphen, two digits, a hyphen, two
    digits. *)
Definition canonical_date (rt : runtime) (s : str) : bool :=
  match s with
  | [a; b; c; d; h1; e; f; h2; g; h] =>
      forallb (is_digit rt) [a; b; c; d; e; f; g; h] && N.eqb h1 45 && N.eqb h2 45
  | _ => false
  end.

(** U+6838 U+7B97 U+8868, the prefix of the accounting tables' names. *)
Definition hsb : str := [26680; 31639; 34920]%N.

End ReSpec.

(** ** The heap of the workshop model *)

Module WorkshopSpec.
Import Workshop.

Definition heap_eq (h1 h2 : heap) : Prop :=
  (forall r, streams h1 r = streams h2 r) /\
  (forall r, metals h1 r = metals h2 r) /\
  (forall r, perfs h1 r = perfs h2 r).

Definition dry_of (o : ProcessStream) : float :=
  (wet_weight_ton o * (f1 - moisture_pct o / f100))%float.

Definition with_dry (o : ProcessStream) (d : float) : ProcessStream :=
  mkProcessStream (wet_weight_ton o) (moisture_pct o) (pb_grade_pct o)
    (zn_grade_pct o) (ag_grade_gpt o) d (metal_content o).

Definition metal_of (o : ProcessStream) : MetalContent :=
  mkMetalContent (dry_of o * (pb_grade_pct o / f100))%float
                 (dry_of o * (zn_grade_pct o / f100))%float
                 (dry_of o * ag_grade_gpt o / f1000)%float.

Definition perf_of (e : WorkshopShiftEntry) (h : heap) (old : PerformanceMetrics)
  : PerformanceMetrics :=
  if (dry_weight_ton (raw e h) >? zero)%float then
    mkPerformanceMetrics
      (dry_weight_ton (conc e h) / dry_weight_ton (raw e h) * f100)%float
      (if (pb_ton (raw_metal e h) >? zero)%float
       then (pb_ton (conc_metal e h) / pb_ton (raw_metal e h) * f100)%float
       else recovery_pb_pct old)
      (if (zn_ton (raw_metal e h) >? zero)%float
       then (zn_ton (conc_metal e h) / zn_ton (raw_metal e h) * f100)%float
       else recovery_zn_pct old)
      (if (ag_kg (raw_metal e h) >? zero)%float
       then (ag_kg (conc_metal e h) / ag_kg (raw_metal e h) * f100)%float
       else recovery_ag_pct old)
      (if (pb_grade_pct (raw e h) >? zero)%float
       then (pb_grade_pct (conc e h) / pb_grade_pct (raw e h))%float
       else enrichment_ratio_pb old)
  else old.

Definition metrics2 (e : WorkshopShiftEntry) : stmt :=
  calculate_metrics (raw_ore e) ;; calculate_metrics (concentrate e).

(** A statement that only assigns attributes of the performance object [p]. *)
Definition perf_only (p : ref) (s : stmt) : Prop :=
  forall h, streams (s h) = streams h /\ metals (s h) = metals h /\
            forall r, r <> p -> perfs (s h) r = perfs h r.

Definition perf_block (e : WorkshopShiftEntry) : stmt :=
    ((fun h => set_yield_pct (performance e)
                 (dry_weight_ton (conc e h) / dry_weight_ton (raw e h)
                  * f100)%float h) ;;
     when (fun h => pb_ton (raw_metal e h) >? zero)%float
       (fun h => set_recovery_pb_pct (performance e)
                   (pb_ton (conc_metal e h) / pb_ton (raw_metal e h)
                    * f100)%float h) ;;
     when (fun h => zn_ton (raw_metal e h) >? zero)%float
       (fun h => set_recovery_zn_pct (performance e)
                   (zn_ton (conc_metal e h) / zn_ton (raw_metal e h)
                    * f100)%float h) ;;
     when (fun h => ag_kg (raw_metal e h) >? zero)%float
       (fun h => set_recovery_ag_pct (performance e)
                   (ag_kg (conc_metal e h) / ag_kg (raw_metal e h)
                    * f100)%float h) ;;
     when (fun h => pb_grade_pct (raw e h) >? zero)%float
       (fun h => set_enrichment_ratio_pb (performance e)
                   (pb_grade_pct (conc e h) / pb_grade_pct (raw e h))%float h)).

(** The stream invariant of the data model, on the object [s] of heap [h]. *)
Definition balanced (h : heap) (s : ref) : Prop :=
  let o := streams h s in
  let m := metals h (metal_content o) in
  dry_weight_ton o = (wet_weight_ton o * (f1 - moisture_pct o / f100))%float /\
  pb_ton m = (dry_weight_ton o * (pb_grade_pct o / f100))%float /\
  zn_ton m = (dry_weight_ton o * (zn_grade_pct o / f100))%float /\
  ag_kg m = (dry_weight_ton o * ag_grade_gpt o / f1000)%float.

(** The measured attributes of a stream, which no method assigns. *)
Definition same_inputs (o o' : ProcessStream) : Prop :=
  wet_weight_ton o' = wet_weight_ton o /\ moisture_pct o' = moisture_pct o /\
  pb_grade_pct o' = pb_grade_pct o /\ zn_grade_pct o' = zn_grade_pct o /\
  ag_grade_gpt o' = ag_grade_gpt o /\ metal_content o' = metal_content o.

Definition stream0 (wet moist pb zn ag dry : float) (m : ref) : ProcessStream :=
  mkProcessStream wet moist pb zn ag dry m.

(** The entry of the module's self-check: raw ore in object 0, concentrate
    in object 1, and a measured tailings stream in object 2. *)
Definition demo_heap : heap :=
  mkHeap
    (fun r => match r with
              | O => stream0 (of_Z 128) (of_Z 3) (of_decimal 375 2) zero (of_Z 161) zero 0%nat
              | S O => stream0 (of_decimal 6899896 6) zero (of_decimal 6527 2) zero
                         (of_Z 3352) (of_decimal 6899896 6) 1%nat
              | _ => stream0 (of_Z 100) (of_Z 10) (of_decimal 13 2) zero (of_Z 8) zero 2%nat
              end)
    (fun _ => default_metal)
    (fun _ => default_perf).

(** A stream of infinite wet weight and moisture 100. *)
Definition unbounded_heap : heap :=
  mkHeap (fun _ => stream0 inf (of_Z 100) zero zero zero zero 0%nat)
         (fun _ => default_metal) (fun _ => default_perf).

Definition demo_entry : WorkshopShiftEntry :=
  mkWorkshopShiftEntry [20057%N; 29677%N] 0%nat 1%nat (Some 2%nat) 0%nat.

End WorkshopSpec.

(** ** Sheets to compute with *)

Module ExtractSpec.

(** The texts [pd.read_excel] reads as NaN by default (pandas' NA
    markers); any other text, in a column that is not all numbers, stays a
    [str]. *)
Definition na_texts : list str :=
  [] :: List.map lit
    ["#N/A"; "#N/A N/A"; "#NA"; "-1.#IND"; "-1.#QNAN"; "-NaN"; "-nan"; "1.#IND";
     "1.#QNAN"; "<NA>"; "N/A"; "NA"; "NULL"; "NaN"; "None"; "n/a"; "nan"; "null"]%string.

Definition kept_as_text (s : str) : bool := negb (existsb (str_eqb s) na_texts).

(** The cell [df.iloc[r, c]] is missing, null, or rejected by [float]. *)
Definition unreadable (rt : runtime) (df : grid) (r c : nat) : Prop :=
  match iloc df r c with
  | Ok v => notnull v = false \/ exists e, py_float rt v = Raise e
  | Raise _ => True
  end.

Definition empty : cell := CFloat nan.

(** An accounting table of one shift, eight rows of five columns, with
    [lead] as the raw-ore lead grade of the first shift; empty cells are
    NaN, as [pd.read_excel] gives them. *)
Definition row_of (lead : cell) : list cell :=
  [CStr (lit "raw"); lead; CFloat (of_Z 161); empty; CFloat (of_Z 8)].

Definition sheet_of (lead : cell) : grid :=
  [[CStr (lit "table"); empty; empty; empty; empty];
   [CStr (lit "date"); empty; empty; empty; empty];
   [CStr (lit "shift"); empty; empty; empty; empty];
   [CStr (lit "item"); CStr (lit "Pb"); CStr (lit "Ag"); empty; CStr (lit "value")];
   row_of lead;
   [CStr (lit "conc"); CFloat (of_decimal 6527 2); CFloat (of_Z 3352); empty;
    CFloat (of_Z 128)];
   [CStr (lit "tail"); CFloat (of_decimal 13 2); CFloat (of_Z 8); empty;
    CFloat (of_Z 70)];
   [CStr (lit "moisture"); empty; empty; empty; CFloat (of_Z 3)]].

Definition accept : payload -> response := fun _ => Status 200 [].

Definition first_shift : Accounting.shift :=
  nth 0 Accounting.SHIFTS (Accounting.mkShift [] 0).

(** A file of the accounting tables whose name gives the date 2025-08-19. *)
Definition report_path : str := lit "reports/8.19.xlsx".

End ExtractSpec.

Module FloatSign.

(** [x] is not below zero: a zero, NaN, or a float or infinity of
    positive sign. *)
Definition not_negative (x : float) : bool :=
  match x with
  | S754_zero _ | S754_nan => true
  | S754_infinity s | S754_finite s _ _ => negb s
  end.

End FloatSign.

Module WorkshopRange.
Import Workshop WorkshopSpec.

(** Measurements in range: weights and grades at least 0, the moisture
    between 0 and 100. *)
Definition in_range (o : ProcessStream) : Prop :=
  (zero <=? wet_weight_ton o)%float = true /\
  is_float (moisture_pct o) /\
  (zero <=? moisture_pct o)%float = true /\
  (moisture_pct o <=? f100)%float = true /\
  (zero <=? pb_grade_pct o)%float = true /\
  (zero <=? zn_grade_pct o)%float = true /\
  (zero <=? ag_grade_gpt o)%float = true.

Definition perf_not_negative (p : PerformanceMetrics) : Prop :=
  ltb (yield_pct p) zero = false /\
  ltb (recovery_pb_pct p) zero = false /\
  ltb (recovery_zn_pct p) zero = false /\
  ltb (recovery_ag_pct p) zero = false /\
  ltb (enrichment_ratio_pb p) zero = false.

(** An entry without raw ore whose metrics hold the results of an earlier
    calculation. *)
Definition stale_heap : heap :=
  mkHeap (fun r => stream0 zero zero zero zero zero zero r)
         (fun _ => default_metal)
         (fun _ => mkPerformanceMetrics (of_Z 5) (of_Z 96) zero (of_Z 90) (of_Z 17)).

End WorkshopRange.

Module ExtractTrace.

(** The payloads sent, in order. *)
Fixpoint posts (evs : list event) : list payload :=
  match evs with
  | [] => []
  | Post p :: evs' => p :: posts evs'
  | _ :: evs' => posts evs'
  end.

(** The nine grade cells [import_august.parse_file] reads. *)
Definition grade_cells : list (nat * nat) :=
  [(4, 1); (4, 2); (4, 3); (5, 1); (5, 2); (5, 3); (6, 1); (6, 2); (6, 3)]%nat.

(** The grades of a payload, in the order of [grade_cells]. *)
Definition grades (p : payload) : list num :=
  [r_pbGrade (rawOre p); r_znGrade (rawOre p); r_agGrade (rawOre p);
   c_pbGrade (concentrate p); c_znGrade (concentrate p); c_agGrade (concentrate p);
   t_pbGrade (tailings p); t_znGrade (tailings p); t_agGrade (tailings p)].

(** A one-shift report: the header in row 1, the grades in rows 4 to 6;
    the zinc grade of the raw ore, cell (4, 2), is empty. *)
Definition august_header : str :=
  lit "2025" ++ [24180%N] ++ lit " 8 " ++ [26376%N] ++ lit " 19 " ++ [26085%N]
  ++ lit "  " ++ [65288%N] ++ lit " 2 " ++ [29677; 32452; 65289]%N.

Definition august_sheet : grid :=
  [[CStr (lit "report"); CFloat nan; CFloat nan; CFloat nan];
   [CStr august_header; CFloat nan; CFloat nan; CFloat nan];
   [CStr (lit "item"); CStr (lit "Pb"); CStr (lit "Zn"); CStr (lit "Ag")];
   [CStr (lit "unit"); CStr (lit "%"); CStr (lit "%"); CStr (lit "g/t")];
   [CStr (lit "raw"); CFloat (of_decimal 375 2); CFloat nan; CInt 161];
   [CStr (lit "conc"); CFloat (of_decimal 6527 2); CStr (lit "-"); CInt 3352];
   [CStr (lit "tail"); CFloat (of_decimal 13 2); CFloat zero; CInt 8]].

(** A report that ends after its header: two rows of one column. *)
Definition august_head : grid := [[CStr (lit "report")]; [CStr august_header]].

Definition august_path : str := lit "8/8.19.xlsx".

End ExtractTrace.

Module PathSpec.

Definition no_slash (s : str) : bool := forallb (fun c => negb (N.eqb c Path.slash)) s.

End PathSpec.

(** * Properties *)

(** ** Rounding *)

Module FloatFacts.
Import FloatSpec.

Lemma bpow_pos e : (0 < bpow e)%R.
Proof. apply powerRZ_lt. lra. Qed.

Lemma bpow_add a b : bpow (a + b) = (bpow a * bpow b)%R.
Proof. apply powerRZ_add. lra. Qed.

Lemma bpow_IZR a : 0 <= a -> bpow a = IZR (2 ^ a).
Proof.
  intros Ha. unfold bpow.
  rewrite <- (Z2Nat.id a Ha). now rewrite <- pow_powerRZ, pow_IZR.
Qed.

Lemma bpow_ge_1 a : 0 <= a -> (1 <= bpow a)%R.
Proof.
  intros Ha. rewrite bpow_IZR by assumption. apply IZR_le.
  assert (0 < 2 ^ a) by (apply Z.pow_pos_nonneg; lia). lia.
Qed.

Lemma bpow_le a b : a <= b -> (bpow a <= bpow b)%R.
Proof.
  intros H. replace b with (a + (b - a)) by ring. rewrite bpow_add.
  pose proof (bpow_pos a). pose proof (bpow_ge_1 (b - a) ltac:(lia)). nra.
Qed.

Lemma bpow_lt a b : a < b -> (bpow a < bpow b)%R.
Proof.
  intros H. replace b with (a + 1 + (b - a - 1)) by ring. rewrite !bpow_add.
  pose proof (bpow_pos a). pose proof (bpow_ge_1 (b - a - 1) ltac:(lia)).
  assert (E : bpow 1 = 2%R) by (unfold bpow; simpl; lra).
  rewrite E. nra.
Qed.

Lemma bpow_lt_inv a b : (bpow a < bpow b)%R -> a < b.
Proof.
  intros H. destruct (Z_lt_le_dec a b) as [|Hle]; [assumption|].
  apply bpow_le in Hle. lra.
Qed.

Lemma F2R_shift m e k : 0 <= k -> F2R (m * 2 ^ k) e = F2R m (e + k).
Proof.
  intros Hk. unfold F2R. rewrite mult_IZR, bpow_add, <- bpow_IZR by assumption.
  pose proof (bpow_pos e). ring.
Qed.

(** Digits *)
Lemma digits2_size p : digits2_pos p = Pos.size p.
Proof. induction p; simpl; congruence. Qed.

Lemma digits_bounds p :
  2 ^ (Zpos (digits2_pos p) - 1) <= Zpos p < 2 ^ Zpos (digits2_pos p).
Proof.
  rewrite digits2_size. split.
  - pose proof (Pos.size_le p) as H.
    assert (E : 2 ^ Zpos (Pos.size p) = 2 * 2 ^ (Zpos (Pos.size p) - 1)).
    { rewrite <- Z.pow_succ_r by lia. f_equal. lia. }
    assert (H' : 2 ^ Zpos (Pos.size p) <= Zpos p~0).
    { rewrite <- Pos2Z.inj_pow. now apply Pos2Z.pos_le_pos. }
    lia.
  - pose proof (Pos.size_gt p) as H. rewrite <- Pos2Z.inj_pow. now apply Pos2Z.pos_lt_pos.
Qed.

Lemma Zdigits2_bounds m : 0 < m ->
  (bpow (Zdigits2 m - 1) <= IZR m < bpow (Zdigits2 m))%R.
Proof.
  intros Hm. destruct m as [|p|p]; try lia. simpl Zdigits2.
  pose proof (digits_bounds p) as [H1 H2].
  rewrite !bpow_IZR by lia. split; [apply IZR_le | apply IZR_lt]; assumption.
Qed.

Lemma Zdigits2_nonneg m : 0 <= Zdigits2 m.
Proof. destruct m; simpl; lia. Qed.

Lemma Zdigits2_pos m : 0 < m -> 0 < Zdigits2 m.
Proof. destruct m; simpl; lia. Qed.

(** digits from bounds *)
Lemma Zdigits2_unique m d : 2 ^ (d - 1) <= m < 2 ^ d -> 0 < d -> Zdigits2 m = d.
Proof.
  intros [H1 H2] Hd.
  assert (Hm : 0 < m). { assert (0 < 2 ^ (d - 1)) by (apply Z.pow_pos_nonneg; lia). lia. }
  destruct m as [|p|p]; try lia. simpl.
  pose proof (digits_bounds p) as [H3 H4].
  set (d' := Zpos (digits2_pos p)) in *.
  destruct (Z.lt_trichotomy d d') as [L|[E|G]]; [|lia|].
  - assert (2 ^ d <= 2 ^ (d' - 1)) by (apply Z.pow_le_mono_r; lia). lia.
  - assert (2 ^ d' <= 2 ^ (d - 1)) by (apply Z.pow_le_mono_r; lia). lia.
Qed.

Lemma Zdigits2_mono a b : 0 <= a <= b -> Zdigits2 a <= Zdigits2 b.
Proof.
  intros [Ha Hab]. destruct (Z.eq_dec a 0) as [->|Na]; [apply Zdigits2_nonneg|].
  destruct a as [|p|p]; try lia. destruct b as [|q|q]; try lia. simpl.
  pose proof (digits_bounds p) as [H1 H2]. pose proof (digits_bounds q) as [H3 H4].
  destruct (Z_lt_le_dec (Zpos (digits2_pos q)) (Zpos (digits2_pos p))) as [L|]; [|assumption].
  assert (2 ^ Zpos (digits2_pos q) <= 2 ^ (Zpos (digits2_pos p) - 1))
    by (apply Z.pow_le_mono_r; lia). lia.
Qed.

Lemma Zdigits2_div m k : 0 <= k -> 0 < m / 2 ^ k -> Zdigits2 (m / 2 ^ k) = Zdigits2 m - k.
Proof.
  intros Hk Hq.
  assert (P : 0 < 2 ^ k) by (apply Z.pow_pos_nonneg; lia).
  assert (Hm : 0 < m). { destruct (Z_lt_le_dec 0 m); [assumption|].
    assert (m / 2 ^ k <= 0) by (apply Z.div_le_upper_bound; lia). lia. }
  destruct m as [|p|p]; try lia.
  pose proof (digits_bounds p) as [H1 H2]. simpl Zdigits2 at 2.
  set (d := Zpos (digits2_pos p)) in *.
  assert (Hdk : k < d).
  { destruct (Z_lt_le_dec k d); [assumption|].
    assert (2 ^ d <= 2 ^ k) by (apply Z.pow_le_mono_r; lia).
    rewrite Z.div_small in Hq by lia. lia. }
  apply Zdigits2_unique; [|lia]. split.
  - apply Z.div_le_lower_bound; [lia|].
    rewrite <- Z.pow_add_r by lia. replace (k + (d - k - 1)) with (d - 1) by ring. assumption.
  - apply Z.div_lt_upper_bound; [lia|].
    rewrite <- Z.pow_add_r by lia. replace (k + (d - k)) with d by ring. assumption.
Qed.

(** Right shifts *)
Lemma iter_pos_nat {A} (f : A -> A) p x :
  SpecFloat.iter_pos f p x = Nat.iter (Pos.to_nat p) f x.
Proof.
  revert x. induction p as [p IH|p IH|]; intros x; simpl SpecFloat.iter_pos.
  - rewrite !IH, Pos2Nat.inj_xI.
    replace (S (2 * Pos.to_nat p)) with (Pos.to_nat p + Pos.to_nat p + 1)%nat by lia.
    rewrite !Nat.iter_add. reflexivity.
  - rewrite !IH, Pos2Nat.inj_xO.
    replace (2 * Pos.to_nat p)%nat with (Pos.to_nat p + Pos.to_nat p)%nat by lia.
    rewrite Nat.iter_add. reflexivity.
  - reflexivity.
Qed.

Lemma shr_1_spec m r s : 0 <= m ->
  shr_1 (Build_shr_record m r s) = Build_shr_record (Z.div2 m) (Z.odd m) (r || s).
Proof. intros H. destruct m as [|[p|p|]|]; try lia; reflexivity. Qed.

Lemma shr_iter n m r s : 0 <= m ->
  let st := Nat.iter n shr_1 (Build_shr_record m r s) in
  shr_m st = m / 2 ^ Z.of_nat n /\
  (r || s = false -> m = shr_m st * 2 ^ Z.of_nat n -> shr_r st || shr_s st = false).
Proof.
  intros Hm. induction n as [|n IH].
  - simpl. rewrite Z.div_1_r. auto.
  - cbn zeta in IH |- *. rewrite Nat2Z.inj_succ, Z.pow_succ_r by lia.
    simpl Nat.iter. destruct (Nat.iter n shr_1 _) as [mn rn sn]. cbn [shr_m shr_r shr_s] in IH.
    destruct IH as [E IH].
    assert (P : 0 < 2 ^ Z.of_nat n) by (apply Z.pow_pos_nonneg; lia).
    assert (Hmn : 0 <= mn) by (subst mn; apply Z.div_pos; lia).
    rewrite shr_1_spec by assumption. cbn [shr_m shr_r shr_s].
    rewrite Z.div2_div. split.
    + subst mn. rewrite Z.div_div by lia. now rewrite (Z.mul_comm 2).
    + intros Hrs Hex.
      pose proof (Z.mul_div_le mn 2 ltac:(lia)) as H2.
      pose proof (Z.mul_div_le m (2 ^ Z.of_nat n) P) as H3. rewrite <- E in H3.
      assert (A : 2 * (mn / 2) = mn) by nia.
      assert (B : m = mn * 2 ^ Z.of_nat n) by nia.
      rewrite (IH Hrs B), orb_false_r.
      rewrite <- Z.negb_even. apply negb_false_iff. apply Z.even_spec.
      exists (mn / 2). lia.
Qed.

Lemma loc_exact_iff st : loc_of_shr_record st = loc_Exact <-> shr_r st || shr_s st = false.
Proof. destruct st as [m [|] [|]]; simpl; split; congruence. Qed.

Lemma loc_of_record m l : loc_of_shr_record (shr_record_of_loc m l) = l.
Proof. destruct l as [|[| |]]; reflexivity. Qed.

Lemma shr_m_record m l : shr_m (shr_record_of_loc m l) = m.
Proof. destruct l as [|[| |]]; reflexivity. Qed.

(** [shr mrs e n]: the mantissa is divided by [2^n]; an exact location stays
    exact only when nothing is lost. *)
Lemma shr_spec m l e n : 0 <= m ->
  let k := Z.max 0 n in
  let '(st, e') := shr (shr_record_of_loc m l) e n in
  e' = e + k /\ shr_m st = m / 2 ^ k /\
  (l = loc_Exact -> m = shr_m st * 2 ^ k -> loc_of_shr_record st = loc_Exact) /\
  (k = 0 -> loc_of_shr_record st = l).
Proof.
  intros Hm. destruct n as [|p|p]; simpl.
  - rewrite Z.div_1_r, shr_m_record, loc_of_record. repeat split; auto with zarith.
  - rewrite iter_pos_nat.
    assert (R : exists r s, shr_record_of_loc m l = Build_shr_record m r s /\
                            (l = loc_Exact -> r || s = false)).
    { destruct l as [|[| |]]; simpl; do 2 eexists; split; try reflexivity; congruence. }
    destruct R as (r & s & -> & Hl).
    pose proof (shr_iter (Pos.to_nat p) m r s Hm) as H. cbn zeta in H.
    rewrite positive_nat_Z in H. destruct H as [H1 H2].
    repeat split; auto.
    + intros L E. apply loc_exact_iff. auto.
    + lia.
  - rewrite Z.div_1_r, shr_m_record, loc_of_record. repeat split; auto with zarith.
Qed.

(** Values *)
Lemma F2R_le a b e : a <= b -> (F2R a e <= F2R b e)%R.
Proof. intros H. unfold F2R. apply IZR_le in H. pose proof (bpow_pos e). nra. Qed.

Lemma F2R_lt a b e : a < b -> (F2R a e < F2R b e)%R.
Proof. intros H. unfold F2R. apply IZR_lt in H. pose proof (bpow_pos e). nra. Qed.

Lemma F2R_le_inv a b e : (F2R a e <= F2R b e)%R -> a <= b.
Proof.
  intros H. destruct (Z_lt_le_dec b a) as [L|]; [|assumption].
  apply (F2R_lt _ _ e) in L. lra.
Qed.

Lemma F2R_lt_inv a b e : (F2R a e < F2R b e)%R -> a < b.
Proof.
  intros H. destruct (Z_lt_le_dec a b) as [|L]; [assumption|].
  apply (F2R_le _ _ e) in L. lra.
Qed.

Lemma F2R_align m e e' : e' <= e -> F2R m e = F2R (m * 2 ^ (e - e')) e'.
Proof.
  intros H. rewrite F2R_shift by lia. f_equal. ring.
Qed.

Lemma F2R_0 e : F2R 0 e = 0%R.
Proof. unfold F2R. lra. Qed.

Lemma F2R_pos m e : 0 < m -> (0 < F2R m e)%R.
Proof. intros H. rewrite <- (F2R_0 e). now apply F2R_lt. Qed.

Lemma F2R_bounds m e : 0 < m ->
  (bpow (Zdigits2 m - 1 + e) <= F2R m e < bpow (Zdigits2 m + e))%R.
Proof.
  intros H. destruct (Zdigits2_bounds m H) as [H1 H2].
  unfold F2R. rewrite !bpow_add. pose proof (bpow_pos e). split; nra.
Qed.

(** The magnitude is monotone. *)
Lemma mag_le m e M E : 0 < m -> 0 < M -> (F2R m e <= F2R M E)%R ->
  Zdigits2 m + e <= Zdigits2 M + E.
Proof.
  intros Hm HM H.
  destruct (F2R_bounds m e Hm) as [H1 _]. destruct (F2R_bounds M E HM) as [_ H2].
  assert (L : (bpow (Zdigits2 m - 1 + e) < bpow (Zdigits2 M + E))%R) by lra.
  apply bpow_lt_inv in L. lia.
Qed.

Lemma fexp_eq e : fexp prec emax e = Z.max (e - 53) (-1074).
Proof. reflexivity. Qed.

Lemma bounded_iff m e :
  SpecFloat.bounded prec emax m e = true <->
  fexp prec emax (Zpos (digits2_pos m) + e) = e /\ e <= 971.
Proof.
  unfold SpecFloat.bounded, canonical_mantissa. rewrite andb_true_iff, Z.eqb_eq, Z.leb_le.
  reflexivity.
Qed.

Lemma round_nearest_even_bounds m l :
  m <= round_nearest_even m l <= m + 1 /\
  (l = loc_Exact -> round_nearest_even m l = m).
Proof.
  destruct l as [|[| |]]; simpl; try destruct (Z.even m); split; auto; try lia; congruence.
Qed.

(** A value at most a float [X] rounds to a float at most [X]. *)
Lemma round_aux_le s m e l M E :
  0 <= m -> SpecFloat.bounded prec emax M E = true ->
  e <= fexp prec emax (Zdigits2 m + e) ->
  (F2R m e <= F2R (Zpos M) E)%R ->
  (l <> loc_Exact -> (F2R m e < F2R (Zpos M) E)%R) ->
  binary_round_aux prec emax s m e l = S754_zero s \/
  exists m' e', binary_round_aux prec emax s m e l = S754_finite s m' e' /\
     SpecFloat.bounded prec emax m' e' = true /\ (F2R (Zpos m') e' <= F2R (Zpos M) E)%R.
Proof.
  intros Hm Hb Hreg Hle Hlt.
  apply bounded_iff in Hb. destruct Hb as [HcM HeM].
  change (Zpos (digits2_pos M)) with (Zdigits2 (Zpos M)) in HcM.
  unfold binary_round_aux, shr_fexp.
  set (e1 := fexp prec emax (Zdigits2 m + e)) in *.
  pose proof (shr_spec m l e (e1 - e) Hm) as S1. cbn zeta in S1.
  destruct (shr (shr_record_of_loc m l) e (e1 - e)) as [st1 e1'].
  replace (Z.max 0 (e1 - e)) with (e1 - e) in S1 by lia.
  destruct S1 as (E1 & Hm1 & Hex1 & Hk0).
  assert (E1' : e1' = e1) by lia. clear E1. subst e1'.
  set (m1 := shr_m st1) in *. set (l1 := loc_of_shr_record st1) in *.
  assert (P1 : 0 < 2 ^ (e1 - e)) by (apply Z.pow_pos_nonneg; lia).
  assert (Hm1pos : 0 <= m1) by (rewrite Hm1; apply Z.div_pos; lia).
  assert (Hm1le : m1 * 2 ^ (e1 - e) <= m).
  { rewrite Hm1, Z.mul_comm. apply Z.mul_div_le. lia. }
  destruct (round_nearest_even_bounds m1 l1) as [[R1 R2] R3].
  set (m2 := round_nearest_even m1 l1) in *.
  (* the first exponent is at most the one of the bound *)
  assert (He1 : e1 <= E).
  { rewrite <- HcM. unfold e1. rewrite !fexp_eq.
    destruct (Z.eq_dec m 0) as [->|Nm].
    - simpl Zdigits2. unfold e1 in Hreg. rewrite fexp_eq in Hreg. simpl Zdigits2 in Hreg. lia.
    - pose proof (mag_le m e (Zpos M) E ltac:(lia) ltac:(lia) Hle). lia. }
  (* the truncated value *)
  assert (V1 : (F2R m1 e1 <= F2R m e)%R).
  { replace e1 with (e + (e1 - e)) by ring. rewrite <- F2R_shift by lia. now apply F2R_le. }
  assert (V1s : l1 <> loc_Exact -> (F2R m1 e1 < F2R (Zpos M) E)%R).
  { intros Hl1. destruct (Z.eq_dec m (m1 * 2 ^ (e1 - e))) as [Eq|Ne].
    - assert (Hl : l <> loc_Exact) by (intros Hl; apply Hl1; auto).
      specialize (Hlt Hl). lra.
    - assert (L : (F2R m1 e1 < F2R m e)%R).
      { replace e1 with (e + (e1 - e)) by ring. rewrite <- F2R_shift by lia.
        apply F2R_lt. lia. }
      lra. }
  assert (V2 : m2 <= Zpos M * 2 ^ (E - e1)).
  { rewrite (F2R_align (Zpos M) E e1 He1) in V1s, Hle.
    destruct (Z.eq_dec m2 m1) as [->|Ne].
    - apply (F2R_le_inv _ _ e1). lra.
    - assert (Hl1 : l1 <> loc_Exact) by (intros Hl1; apply Ne; auto).
      specialize (V1s Hl1). apply F2R_lt_inv in V1s. lia. }
  assert (V2R : (F2R m2 e1 <= F2R (Zpos M) E)%R).
  { rewrite (F2R_align (Zpos M) E e1 He1). now apply F2R_le. }
  (* the second shift *)
  assert (Hm2 : 0 <= m2) by lia.
  set (e2 := fexp prec emax (Zdigits2 m2 + e1)).
  pose proof (shr_spec m2 loc_Exact e1 (e2 - e1) Hm2) as S2. cbn zeta in S2.
  destruct (shr (shr_record_of_loc m2 loc_Exact) e1 (e2 - e1)) as [st2 e2'].
  destruct S2 as (E2 & Hm3 & _ & _).
  set (k2 := Z.max 0 (e2 - e1)) in *.
  assert (P2 : 0 < 2 ^ k2) by (apply Z.pow_pos_nonneg; lia).
  cbv beta iota zeta.
  destruct (shr_m st2) as [|m3|m3] eqn:Em3.
  - now left.
  - right.
    assert (Hq : 0 < m2 / 2 ^ k2) by lia.
    assert (Hm2p : 0 < m2).
    { destruct (Z.eq_dec m2 0) as [Z0|]; [|lia]. rewrite Z0, Z.div_0_l in Hq; lia. }
    pose proof (Zdigits2_div m2 k2 ltac:(lia) Hq) as D3. rewrite <- Hm3 in D3.
    assert (V3 : (F2R (Zpos m3) e2' <= F2R m2 e1)%R).
    { rewrite E2, <- F2R_shift by lia. apply F2R_le.
      rewrite Hm3, Z.mul_comm. apply Z.mul_div_le. lia. }
    (* the result is in canonical position *)
    assert (Hge : e1 <= e2).
    { unfold e2, e1. rewrite !fexp_eq.
      destruct (Z.eq_dec m1 0) as [Z1|N1].
      - (* everything was shifted out: the exponent is the least one *)
        assert (e1 = -1074); [|unfold e1 in *; rewrite fexp_eq in *; lia].
        unfold e1 in *. rewrite fexp_eq in *.
        destruct (Z.eq_dec m 0) as [->|Nm]; [simpl Zdigits2 in *; lia|].
        assert (Hsm : m < 2 ^ (Z.max (Zdigits2 m + e - 53) (-1074) - e)).
        { rewrite Z1 in Hm1. symmetry in Hm1.
          apply Z.div_small_iff in Hm1; lia. }
        destruct (Zdigits2_bounds m ltac:(lia)) as [B1 _].
        rewrite <- (Z.sub_add e (Z.max _ _)) in Hsm at 1.
        assert (Hd : Zdigits2 m - 1 < Z.max (Zdigits2 m + e - 53) (-1074) - e).
        { apply bpow_lt_inv. apply IZR_lt in Hsm.
          rewrite <- bpow_IZR in Hsm by lia.
          replace (Z.max (Zdigits2 m + e - 53) (-1074) - e + e - e)
            with (Z.max (Zdigits2 m + e - 53) (-1074) - e) in Hsm by ring. lra. }
        lia.
      - assert (D1 : Zdigits2 m1 = Zdigits2 m - (e1 - e)).
        { rewrite Hm1. apply Zdigits2_div; lia. }
        pose proof (Zdigits2_mono m1 m2 ltac:(lia)).
        unfold e1 in D1. rewrite fexp_eq in D1. lia. }
    assert (Ee2 : e2' = e2) by lia.
    assert (Hcan : fexp prec emax (Zdigits2 (Zpos m3) + e2') = e2').
    { rewrite D3, Ee2. replace (Zdigits2 m2 - k2 + e2) with (Zdigits2 m2 + e1) by lia.
      reflexivity. }
    assert (Hbnd : e2' <= 971).
    { pose proof (mag_le (Zpos m3) e2' (Zpos M) E ltac:(lia) ltac:(lia) ltac:(lra)) as Hmag.
      rewrite <- Hcan. rewrite <- HcM in HeM. rewrite fexp_eq in *. lia. }
    exists m3, e2'. split; [|split].
    + apply Z.leb_le in Hbnd. change (emax - prec) with 971. now rewrite Hbnd.
    + apply bounded_iff. split; assumption.
    + lra.
  - exfalso. assert (0 <= m2 / 2 ^ k2) by (apply Z.div_pos; lia). lia.
Qed.

(** Comparison of floats in canonical position is the order of their values. *)
Lemma leb_canonical m e M E :
  SpecFloat.bounded prec emax m e = true -> SpecFloat.bounded prec emax M E = true ->
  (F2R (Zpos m) e <= F2R (Zpos M) E)%R ->
  SFleb (S754_finite false m e) (S754_finite false M E) = true.
Proof.
  intros Hb HB H. apply bounded_iff in Hb, HB. destruct Hb as [Hc _], HB as [HC _].
  change (Zpos (digits2_pos m)) with (Zdigits2 (Zpos m)) in Hc.
  change (Zpos (digits2_pos M)) with (Zdigits2 (Zpos M)) in HC.
  unfold SFleb, SFcompare. destruct (Z.compare_spec e E) as [Eq|Lt|Gt].
  - subst E. apply F2R_le_inv in H.
    change (Pos.compare_cont Eq m M) with (Pos.compare m M).
    destruct (Pos.compare_spec m M); try reflexivity. lia.
  - reflexivity.
  - exfalso. destruct (F2R_bounds (Zpos m) e ltac:(lia)) as [L _].
    destruct (F2R_bounds (Zpos M) E ltac:(lia)) as [_ U].
    assert (Hd : Zdigits2 (Zpos M) + E <= Zdigits2 (Zpos m) - 1 + e)
      by (rewrite fexp_eq in *; lia).
    apply bpow_le in Hd. lra.
Qed.

Lemma leb_canonical_inv m e M E :
  SpecFloat.bounded prec emax m e = true -> SpecFloat.bounded prec emax M E = true ->
  SFleb (S754_finite false m e) (S754_finite false M E) = true ->
  (F2R (Zpos m) e <= F2R (Zpos M) E)%R.
Proof.
  intros Hb HB H. apply bounded_iff in Hb, HB. destruct Hb as [Hc _], HB as [HC _].
  change (Zpos (digits2_pos m)) with (Zdigits2 (Zpos m)) in Hc.
  change (Zpos (digits2_pos M)) with (Zdigits2 (Zpos M)) in HC.
  unfold SFleb, SFcompare in H. destruct (Z.compare_spec e E) as [Eq|Lt|Gt].
  - subst E. apply F2R_le.
    change (Pos.compare_cont Eq m M) with (Pos.compare m M) in H.
    revert H. destruct (Pos.compare_spec m M); intros H'; try discriminate; lia.
  - destruct (F2R_bounds (Zpos m) e ltac:(lia)) as [_ U].
    destruct (F2R_bounds (Zpos M) E ltac:(lia)) as [L _].
    assert (Hd : Zdigits2 (Zpos m) + e <= Zdigits2 (Zpos M) - 1 + E)
      by (rewrite fexp_eq in *; lia).
    apply bpow_le in Hd. lra.
  - discriminate.
Qed.

(** Left shifts *)
Lemma iter_xO m d : Zpos (Pos.iter xO m d) = Zpos m * 2 ^ Zpos d.
Proof.
  induction d as [|d IH] using Pos.peano_ind.
  - simpl. lia.
  - rewrite Pos.iter_succ, Pos2Z.inj_xO, IH, Pos2Z.inj_succ, Z.pow_succ_r by lia. ring.
Qed.

Lemma shl_align_spec mx ex ex' :
  let '(m, e) := shl_align mx ex ex' in
  e = Z.min ex ex' /\ Zpos m = Zpos mx * 2 ^ (ex - e).
Proof.
  unfold shl_align. destruct (ex' - ex) as [|d|d] eqn:Hd.
  - split; [lia|]. rewrite Z.sub_diag. simpl. lia.
  - split; [lia|]. rewrite Z.sub_diag. simpl. lia.
  - split; [lia|]. rewrite iter_xO. f_equal. f_equal. lia.
Qed.

Lemma Zdigits2_shift m k : 0 < m -> 0 <= k -> Zdigits2 (m * 2 ^ k) = Zdigits2 m + k.
Proof.
  intros Hm Hk. destruct m as [|p|p]; try lia.
  pose proof (digits_bounds p) as [H1 H2]. simpl Zdigits2 at 2.
  set (d := Zpos (digits2_pos p)) in *.
  assert (P : 0 < 2 ^ k) by (apply Z.pow_pos_nonneg; lia).
  apply Zdigits2_unique; [|lia]. split.
  - replace (d + k - 1) with (d - 1 + k) by ring. rewrite Z.pow_add_r by lia. nia.
  - rewrite Z.pow_add_r by lia. nia.
Qed.

(** [binary_round] of a value at most a float [X] is at most [X]. *)
Lemma round_le s p e M E :
  SpecFloat.bounded prec emax M E = true ->
  (F2R (Zpos p) e <= F2R (Zpos M) E)%R ->
  binary_round prec emax s p e = S754_zero s \/
  exists m' e', binary_round prec emax s p e = S754_finite s m' e' /\
     SpecFloat.bounded prec emax m' e' = true /\ (F2R (Zpos m') e' <= F2R (Zpos M) E)%R.
Proof.
  intros HB H. unfold binary_round.
  pose proof (shl_align_spec p e (fexp prec emax (Zpos (digits2_pos p) + e))) as A.
  destruct (shl_align p e _) as [mz ez]. destruct A as [Ez Emz].
  change (Zpos (digits2_pos p)) with (Zdigits2 (Zpos p)) in *.
  assert (V : F2R (Zpos mz) ez = F2R (Zpos p) e).
  { rewrite Emz, F2R_shift by lia. f_equal. ring. }
  apply round_aux_le; try assumption; try lia.
  - rewrite Emz, Zdigits2_shift by lia.
    replace (Zdigits2 (Zpos p) + (e - ez) + ez) with (Zdigits2 (Zpos p) + e) by ring. lia.
  - now rewrite V.
  - congruence.
Qed.

Lemma below_of_round (r : float) M E :
  (r = S754_zero false \/
   exists m' e', r = S754_finite false m' e' /\
     SpecFloat.bounded prec emax m' e' = true /\ (F2R (Zpos m') e' <= F2R (Zpos M) E)%R) ->
  below (F2R (Zpos M) E) r.
Proof. intros [->|(m' & e' & -> & Hb & Hv)]; simpl; auto. Qed.

Lemma F2R_one : F2R (Zpos one_m) (-52) = 1%R.
Proof.
  change (Zpos one_m) with (1 * 2 ^ 52). rewrite F2R_shift by lia.
  unfold F2R, bpow. simpl. lra.
Qed.

Lemma F2R_mul m1 e1 m2 e2 : F2R (m1 * m2) (e1 + e2) = (F2R m1 e1 * F2R m2 e2)%R.
Proof. unfold F2R. rewrite mult_IZR, bpow_add. ring. Qed.

Lemma mul_below mw ew h :
  SpecFloat.bounded prec emax mw ew = true -> below 1 h ->
  below (F2R (Zpos mw) ew) (SFmul prec emax (S754_finite false mw ew) h).
Proof.
  intros Hw Hh. destruct h as [s| | |[|] mh eh]; simpl in Hh; try contradiction.
  - exact I.
  - destruct Hh as [Hbh Hv]. cbn [SFmul xorb].
    apply below_of_round. apply round_aux_le; try assumption; try lia.
    + apply bounded_iff in Hw, Hbh. destruct Hw as [Cw _], Hbh as [Ch _].
      change (Zpos (digits2_pos mw)) with (Zdigits2 (Zpos mw)) in Cw.
      change (Zpos (digits2_pos mh)) with (Zdigits2 (Zpos mh)) in Ch.
      assert (D : Zdigits2 (Zpos mw) + Zdigits2 (Zpos mh) - 1 <= Zdigits2 (Zpos (mw * mh))).
      { destruct (Zdigits2_bounds (Zpos mw) ltac:(lia)) as [B1 _].
        destruct (Zdigits2_bounds (Zpos mh) ltac:(lia)) as [B2 _].
        destruct (Zdigits2_bounds (Zpos (mw * mh)) ltac:(lia)) as [_ B3].
        rewrite Pos2Z.inj_mul, mult_IZR in B3.
        assert (L : (bpow (Zdigits2 (Zpos mw) - 1 + (Zdigits2 (Zpos mh) - 1))
                     < bpow (Zdigits2 (Zpos (mw * mh))))%R).
        { rewrite bpow_add. pose proof (bpow_pos (Zdigits2 (Zpos mw) - 1)).
          pose proof (bpow_pos (Zdigits2 (Zpos mh) - 1)).
          apply Rle_lt_trans with (IZR (Zpos mw) * IZR (Zpos mh))%R; [|exact B3].
          apply Rmult_le_compat; lra. }
        apply bpow_lt_inv in L. lia. }
      pose proof (Zdigits2_pos (Zpos mw) ltac:(lia)).
      pose proof (Zdigits2_pos (Zpos mh) ltac:(lia)).
      rewrite fexp_eq in *. lia.
    + rewrite Pos2Z.inj_mul, F2R_mul.
      pose proof (F2R_pos (Zpos mw) ew ltac:(lia)).
      pose proof (F2R_pos (Zpos mh) eh ltac:(lia)). nra.
    + congruence.
Qed.

Lemma new_location_exact n r : new_location n r <> loc_Exact -> r <> 0.
Proof.
  intros H ->. apply H. unfold new_location, new_location_even, new_location_odd.
  destruct (Z.even n); reflexivity.
Qed.

Lemma shift_match m s : 0 <= s ->
  match s with Z.pos _ => Z.shiftl m s | 0 => m | Z.neg _ => 0 end = m * 2 ^ s.
Proof.
  intros H. destruct s as [|p|p]; [rewrite Z.pow_0_r; lia | apply Z.shiftl_mul_pow2; lia | lia].
Qed.

Lemma div_below m1 e1 m2 e2 :
  (F2R (Zpos m1) e1 <= F2R (Zpos m2) e2)%R ->
  below 1 (SFdiv prec emax (S754_finite false m1 e1) (S754_finite false m2 e2)).
Proof.
  intros H. cbn [SFdiv xorb]. unfold SFdiv_core_binary.
  set (d1 := Zdigits2 (Zpos m1)). set (d2 := Zdigits2 (Zpos m2)).
  set (e' := Z.min (fexp prec emax (d1 + e1 - (d2 + e2))) (e1 - e2)).
  set (s := e1 - e2 - e').
  assert (Hs : 0 <= s) by (unfold s, e'; lia).
  set (m' := match s with Z.pos _ => Z.shiftl (Zpos m1) s | 0 => Zpos m1 | Z.neg _ => 0 end).
  assert (Em' : m' = Zpos m1 * 2 ^ s).
  { unfold m'. now apply shift_match. }
  clearbody m'.
  pose proof (Z_div_mod m' (Zpos m2) ltac:(lia)) as DM.
  destruct (Z.div_eucl m' (Zpos m2)) as [q r]. destruct DM as [Eq Hr].
  assert (P : 0 < 2 ^ s) by (apply Z.pow_pos_nonneg; lia).
  assert (Hq : 0 <= q) by nia.
  (* the exact quotient is at most one *)
  assert (V : (IZR m' * bpow e' <= IZR (Zpos m2))%R).
  { unfold F2R in H. replace e1 with (s + e' + e2) in H by (unfold s; ring).
    rewrite !bpow_add in H. rewrite Em', mult_IZR, <- bpow_IZR by lia.
    pose proof (bpow_pos e2). pose proof (bpow_pos e'). pose proof (bpow_pos s).
    apply (Rmult_le_reg_r (bpow e2)); [assumption|]. lra. }
  rewrite Eq, plus_IZR, mult_IZR in V.
  assert (Hm2 : (0 < IZR (Zpos m2))%R) by (apply IZR_lt; lia).
  assert (Hr0 : (0 <= IZR r)%R) by (apply IZR_le; lia).
  pose proof (bpow_pos e') as Be'.
  rewrite <- F2R_one. apply below_of_round. apply round_aux_le.
  - assumption.
  - reflexivity.
  - (* enough digits are computed *)
    destruct (Z_le_gt_dec e' (-1074)) as [L|G]; [rewrite fexp_eq; lia|].
    assert (He' : e' <= d1 + e1 - (d2 + e2) - 53).
    { unfold e' in *. rewrite fexp_eq in *. lia. }
    destruct (digits_bounds m1) as [B1 _]. destruct (digits_bounds m2) as [_ B2].
    fold (Zdigits2 (Zpos m1)) in B1. fold (Zdigits2 (Zpos m2)) in B2. fold d1 in B1. fold d2 in B2.
    pose proof (Zdigits2_pos (Zpos m1) ltac:(lia)) as D1. fold d1 in D1.
    pose proof (Zdigits2_pos (Zpos m2) ltac:(lia)) as D2. fold d2 in D2.
    set (j := d1 + s - d2 - 1).
    assert (Hj : 52 <= j) by (unfold j, s; lia).
    assert (Pj : 0 < 2 ^ j) by (apply Z.pow_pos_nonneg; lia).
    assert (Hjq : 2 ^ j <= q).
    { assert (T : 2 ^ j * 2 ^ d2 = 2 ^ (d1 - 1) * 2 ^ s).
      { rewrite <- !Z.pow_add_r by lia. f_equal. unfold j. ring. }
      assert (2 ^ j * Zpos m2 <= m') by nia.
      nia. }
    assert (Dq : j < Zdigits2 q).
    { destruct (Zdigits2_bounds q ltac:(lia)) as [_ U].
      apply IZR_le in Hjq. rewrite <- bpow_IZR in Hjq by lia.
      apply bpow_lt_inv. lra. }
    rewrite fexp_eq. unfold j, s in *. lia.
  - unfold F2R at 1. rewrite F2R_one. nra.
  - intros Hl. apply new_location_exact in Hl.
    assert (Hr1 : (0 < IZR r)%R) by (apply IZR_lt; lia).
    unfold F2R at 1. rewrite F2R_one. nra.
Qed.

Lemma F2R_sub a b e : F2R (a - b) e = (F2R a e - F2R b e)%R.
Proof. unfold F2R. rewrite minus_IZR. ring. Qed.

Lemma sub_below g :
  below 1 g -> below 1 (SFsub prec emax (S754_finite false one_m (-52)) g).
Proof.
  intros Hg. destruct g as [s| | |[|] mg eg]; simpl in Hg; try contradiction.
  - cbn [SFsub]. split; [reflexivity|]. rewrite F2R_one. lra.
  - destruct Hg as [Hb Hv]. cbn [SFsub cond_Zopp].
    set (ez := Z.min (-52) eg).
    pose proof (shl_align_spec one_m (-52) ez) as A.
    pose proof (shl_align_spec mg eg ez) as B.
    destruct (shl_align one_m (-52) ez) as [ma ea].
    destruct (shl_align mg eg ez) as [mb eb]. cbn [fst].
    destruct A as [Ea Ema], B as [Eb Emb].
    assert (Ea' : ea = ez) by (unfold ez in *; lia).
    assert (Eb' : eb = ez) by (unfold ez in *; lia).
    clear Ea Eb. subst ea eb.
    assert (Va : F2R (Zpos ma) ez = 1%R).
    { rewrite Ema, F2R_shift by (unfold ez; lia).
      replace (ez + (-52 - ez)) with (-52) by ring. apply F2R_one. }
    assert (Vb : F2R (Zpos mb) ez = F2R (Zpos mg) eg).
    { rewrite Emb, F2R_shift by (unfold ez; lia). f_equal. ring. }
    pose proof (F2R_sub (Zpos ma) (Zpos mb) ez) as Vd. rewrite Va, Vb in Vd.
    pose proof (F2R_pos (Zpos mg) eg ltac:(lia)) as Gp.
    destruct (Zpos ma - Zpos mb) as [|p|p]; cbn [binary_normalize].
    + exact I.
    + rewrite <- F2R_one. apply below_of_round. apply round_le; [reflexivity|].
      rewrite F2R_one. lra.
    + exfalso. assert (N : (F2R (Zneg p) ez < 0)%R).
      { rewrite <- (F2R_0 ez). apply F2R_lt. lia. }
      lra.
Qed.

Import Workshop.

Lemma f1_eq : f1 = S754_finite false one_m (-52).
Proof. reflexivity. Qed.

Lemma f100_eq : f100 = S754_finite false 7036874417766400 (-46).
Proof. reflexivity. Qed.

(** A percentage divided by 100 is a fraction. *)
Lemma fraction_below m :
  is_float m -> leb zero m = true -> leb m f100 = true -> below 1 (div m f100).
Proof.
  intros Hf H0 H100. rewrite f100_eq in *.
  destruct m as [s|[|]| |[|] mm em]; try discriminate.
  - exact I.
  - apply div_below. apply leb_canonical_inv; [exact Hf|reflexivity|exact H100].
Qed.

Lemma mul_fraction_le wet h :
  is_float wet -> is_finite wet = true -> leb zero wet = true -> below 1 h ->
  leb (mul wet h) wet = true.
Proof.
  intros Hf Hfin H0 Hh.
  destruct wet as [s|[|]| |[|] mw ew]; try discriminate.
  - destruct h as [s'| | |[|] mh eh]; simpl in Hh; try contradiction; reflexivity.
  - pose proof (mul_below mw ew h Hf Hh) as B. unfold mul.
    destruct (SFmul prec emax (S754_finite false mw ew) h) as [s'| | |[|] m' e'];
      simpl in B; try contradiction.
    + reflexivity.
    + destruct B as [Hb Hv]. now apply leb_canonical.
Qed.

Theorem dry_le_wet wet m :
  is_float wet -> is_float m -> is_finite wet = true ->
  leb zero wet = true -> leb zero m = true -> leb m f100 = true ->
  leb (mul wet (sub f1 (div m f100))) wet = true.
Proof.
  intros Hw Hm Hfin H0 Hm0 Hm100.
  apply mul_fraction_le; try assumption.
  rewrite f1_eq. apply sub_below. now apply fraction_below.
Qed.

End FloatFacts.

(** ** workshop_model.py *)

Module WorkshopFacts.
Import Workshop WorkshopSpec.

Lemma cm_streams s h r :
  streams (calculate_metrics s h) r =
  if Nat.eqb r s then with_dry (streams h s) (dry_of (streams h s)) else streams h r.
Proof.
  unfold calculate_metrics, seq, set_ag_kg, set_zn_ton, set_pb_ton, set_dry_weight_ton. cbn [streams].
  unfold upd. reflexivity.
Qed.

Lemma cm_metals s h r :
  metals (calculate_metrics s h) r =
  if Nat.eqb r (metal_content (streams h s)) then metal_of (streams h s) else metals h r.
Proof.
  unfold calculate_metrics, seq, set_ag_kg, set_zn_ton, set_pb_ton, set_dry_weight_ton.
  cbn [streams metals]. unfold upd. rewrite !Nat.eqb_refl.
  cbn [metal_content dry_weight_ton pb_ton zn_ton ag_kg pb_grade_pct zn_grade_pct ag_grade_gpt].
  destruct (Nat.eqb r _); reflexivity.
Qed.

Lemma cm_perfs s h : perfs (calculate_metrics s h) = perfs h.
Proof. reflexivity. Qed.

Lemma perf_only_seq p s1 s2 :
  perf_only p s1 -> perf_only p s2 -> perf_only p (s1 ;; s2).
Proof.
  intros H1 H2 h. unfold seq.
  destruct (H1 h) as (a1 & b1 & c1), (H2 (s1 h)) as (a2 & b2 & c2).
  repeat split; try congruence. intros r Hr. rewrite c2, c1; auto.
Qed.

Lemma perf_only_when p c s : perf_only p s -> perf_only p (when c s).
Proof.
  intros H h. unfold when. destruct (c h); [apply H | auto].
Qed.

Lemma perf_only_set p (set : ref -> float -> heap -> heap) (v : heap -> float) :
  (forall x h, streams (set p x h) = streams h /\ metals (set p x h) = metals h /\
               exists o, perfs (set p x h) = upd (perfs h) p o) ->
  perf_only p (fun h => set p (v h) h).
Proof.
  intros H h. destruct (H (v h) h) as (a & b & o & c).
  repeat split; auto. intros r Hr. rewrite c. unfold upd.
  apply Nat.eqb_neq in Hr. now rewrite Hr.
Qed.

Lemma cp_unfold e h :
  calculate_performance e h =
  when (fun h => dry_weight_ton (raw e h) >? zero)%float (perf_block e) (metrics2 e h).
Proof. reflexivity. Qed.

Lemma perf_block_only e : perf_only (performance e) (perf_block e).
Proof.
  unfold perf_block.
  repeat match goal with
         | |- perf_only _ (_ ;; _) => apply perf_only_seq
         | |- perf_only _ (when _ _) => apply perf_only_when
         end;
    apply perf_only_set; intros x h; repeat split; eexists; reflexivity.
Qed.

Lemma perf_block_perf e h :
  (dry_weight_ton (raw e h) >? zero)%float = true ->
  perfs (perf_block e h) (performance e) = perf_of e h (perfs h (performance e)).
Proof.
  intros G. unfold perf_of. rewrite G.
  unfold perf_block, seq, when.
  set (h1 := set_yield_pct _ _ h).
  assert (E1 : raw_metal e h1 = raw_metal e h) by reflexivity.
  assert (E2 : conc_metal e h1 = conc_metal e h) by reflexivity.
  rewrite E1, E2.
  set (h2 := if (pb_ton (raw_metal e h) >? zero)%float then _ else h1).
  assert (S2 : streams h2 = streams h /\ metals h2 = metals h).
  { unfold h2. destruct (pb_ton (raw_metal e h) >? zero)%float; split; reflexivity. }
  destruct S2 as [S2 M2].
  assert (R2 : raw_metal e h2 = raw_metal e h) by (unfold raw_metal, raw; now rewrite S2, M2).
  assert (C2 : conc_metal e h2 = conc_metal e h) by (unfold conc_metal, conc; now rewrite S2, M2).
  rewrite R2, C2.
  set (h3 := if (zn_ton (raw_metal e h) >? zero)%float then _ else h2).
  assert (S3 : streams h3 = streams h /\ metals h3 = metals h).
  { unfold h3. destruct (zn_ton (raw_metal e h) >? zero)%float; split; cbn; assumption. }
  destruct S3 as [S3 M3].
  assert (R3 : raw_metal e h3 = raw_metal e h) by (unfold raw_metal, raw; now rewrite S3, M3).
  assert (C3 : conc_metal e h3 = conc_metal e h) by (unfold conc_metal, conc; now rewrite S3, M3).
  rewrite R3, C3.
  set (h4 := if (ag_kg (raw_metal e h) >? zero)%float then _ else h3).
  assert (S4 : streams h4 = streams h).
  { unfold h4. destruct (ag_kg (raw_metal e h) >? zero)%float; cbn; assumption. }
  assert (R4 : raw e h4 = raw e h) by (unfold raw; now rewrite S4).
  assert (C4 : conc e h4 = conc e h) by (unfold conc; now rewrite S4).
  rewrite R4, C4.
  unfold h4, h3, h2, h1.
  destruct (pb_ton (raw_metal e h) >? zero)%float,
           (zn_ton (raw_metal e h) >? zero)%float,
           (ag_kg (raw_metal e h) >? zero)%float,
           (pb_grade_pct (raw e h) >? zero)%float;
    cbn [perfs set_yield_pct set_recovery_pb_pct set_recovery_zn_pct set_recovery_ag_pct
         set_enrichment_ratio_pb];
    unfold upd; rewrite ?Nat.eqb_refl;
    cbn [yield_pct recovery_pb_pct recovery_zn_pct recovery_ag_pct enrichment_ratio_pb];
    reflexivity.
Qed.

Lemma cp_streams e h : streams (calculate_performance e h) = streams (metrics2 e h).
Proof.
  rewrite cp_unfold. unfold when.
  destruct (dry_weight_ton _ >? zero)%float; [apply perf_block_only | reflexivity].
Qed.

Lemma cp_metals e h : metals (calculate_performance e h) = metals (metrics2 e h).
Proof.
  rewrite cp_unfold. unfold when.
  destruct (dry_weight_ton _ >? zero)%float; [apply perf_block_only | reflexivity].
Qed.

Lemma cp_perfs_other e h r :
  r <> performance e -> perfs (calculate_performance e h) r = perfs h r.
Proof.
  intros Hr. rewrite cp_unfold. unfold when.
  destruct (dry_weight_ton _ >? zero)%float; [|reflexivity].
  destruct (perf_block_only e (metrics2 e h)) as (_ & _ & H). now rewrite H.
Qed.

Lemma cp_perf e h :
  perf e (calculate_performance e h) = perf_of e (metrics2 e h) (perf e h).
Proof.
  unfold perf. rewrite cp_unfold. unfold when.
  destruct (dry_weight_ton (raw e (metrics2 e h)) >? zero)%float eqn:G.
  - now rewrite perf_block_perf.
  - unfold perf_of. now rewrite G.
Qed.

(** [perf_of] reads the streams and metal contents only. *)
Lemma perf_of_ext e h1 h2 old :
  (forall r, streams h1 r = streams h2 r) -> (forall r, metals h1 r = metals h2 r) ->
  perf_of e h1 old = perf_of e h2 old.
Proof.
  intros S M. unfold perf_of, raw_metal, conc_metal, raw, conc. now rewrite !S, !M.
Qed.

Lemma perf_of_idem e h old : perf_of e h (perf_of e h old) = perf_of e h old.
Proof.
  unfold perf_of.
  destruct (dry_weight_ton (raw e h) >? zero)%float; [|reflexivity].
  cbn [recovery_pb_pct recovery_zn_pct recovery_ag_pct enrichment_ratio_pb].
  repeat match goal with |- context [if ?b then _ else _] => destruct b eqn:? end;
  reflexivity.
Qed.

Lemma dry_of_with_dry o d : dry_of (with_dry o d) = dry_of o.
Proof. reflexivity. Qed.

Lemma metal_of_with_dry o d : metal_of (with_dry o d) = metal_of o.
Proof. reflexivity. Qed.

Lemma with_dry_with_dry o d d' : with_dry (with_dry o d) d' = with_dry o d'.
Proof. reflexivity. Qed.

Lemma m2_streams e h r :
  streams (metrics2 e h) r =
  if Nat.eqb r (concentrate e)
  then with_dry (streams h (concentrate e)) (dry_of (streams h (concentrate e)))
  else if Nat.eqb r (raw_ore e)
       then with_dry (streams h (raw_ore e)) (dry_of (streams h (raw_ore e)))
       else streams h r.
Proof.
  unfold metrics2, seq. rewrite !cm_streams.
  destruct (Nat.eqb_spec r (concentrate e)) as [->|]; [|reflexivity].
  destruct (Nat.eqb_spec (concentrate e) (raw_ore e)) as [->|]; reflexivity.
Qed.

Lemma m2_metals e h r :
  metals (metrics2 e h) r =
  if Nat.eqb r (metal_content (streams h (concentrate e)))
  then metal_of (streams h (concentrate e))
  else if Nat.eqb r (metal_content (streams h (raw_ore e)))
       then metal_of (streams h (raw_ore e))
       else metals h r.
Proof.
  unfold metrics2, seq. rewrite !cm_metals, !cm_streams.
  destruct (Nat.eqb_spec (concentrate e) (raw_ore e)) as [->|]; reflexivity.
Qed.

(** Streams and metal contents after a second pass of the two
    [calculate_metrics] calls, started from any heap with the streams and
    metal contents of the first pass. *)
Lemma m2_idem e h h' :
  streams h' = streams (metrics2 e h) -> metals h' = metals (metrics2 e h) ->
  (forall r, streams (metrics2 e h') r = streams (metrics2 e h) r) /\
  (forall r, metals (metrics2 e h') r = metals (metrics2 e h) r).
Proof.
  intros S M. split; intros r.
  - rewrite (m2_streams e h'), S, !m2_streams, !Nat.eqb_refl.
    destruct (Nat.eqb_spec r (concentrate e)) as [->|]; [reflexivity|].
    destruct (Nat.eqb_spec r (raw_ore e)) as [->|]; [|reflexivity].
    destruct (Nat.eqb_spec (raw_ore e) (concentrate e)); first [reflexivity | congruence].
  - rewrite (m2_metals e h'), S, M, !m2_metals, !m2_streams, !Nat.eqb_refl.
    destruct (Nat.eqb_spec (raw_ore e) (concentrate e)) as [E|];
      [rewrite E|]; cbn [metal_content with_dry]; rewrite ?metal_of_with_dry;
      repeat match goal with |- context [Nat.eqb ?a ?b] =>
        destruct (Nat.eqb_spec a b) end; congruence.
Qed.

Lemma cm_balanced s h : balanced (calculate_metrics s h) s.
Proof.
  unfold balanced. rewrite cm_streams, Nat.eqb_refl.
  cbn [with_dry metal_content]. rewrite cm_metals, Nat.eqb_refl.
  repeat split.
Qed.

Lemma cm_same_inputs s h r : same_inputs (streams h r) (streams (calculate_metrics s h) r).
Proof.
  rewrite cm_streams. destruct (Nat.eqb_spec r s) as [->|]; repeat split.
Qed.

Lemma gtb_zero_of_eqb x : (x =? zero)%float = true -> (x >? zero)%float = false.
Proof. destruct x as [s|s| |s m e]; try destruct s; now cbn. Qed.

(** C2.  Starting from performance fields at their default 0, after
    [calculate_performance] each metric is its formula when its guards
    hold and 0 otherwise, every guard being a strict [> 0]: the yield under
    the guard on the raw-ore dry weight, each recovery under that guard and
    the one on the raw-ore metal content, the enrichment ratio under that
    guard and the one on the raw-ore lead grade.  When the raw-ore dry
    weight equals 0 all five stay 0. *)
Theorem calculate_performance_guards (e : WorkshopShiftEntry) (h : heap) :
  perf e h = default_perf ->
  let h' := calculate_performance e h in
  let g := (dry_weight_ton (raw e h') >? zero)%float in
  yield_pct (perf e h') =
    (if g then dry_weight_ton (conc e h') / dry_weight_ton (raw e h') * f100
     else zero)%float /\
  recovery_pb_pct (perf e h') =
    (if g && (pb_ton (raw_metal e h') >? zero)
     then pb_ton (conc_metal e h') / pb_ton (raw_metal e h') * f100 else zero)%float /\
  recovery_zn_pct (perf e h') =
    (if g && (zn_ton (raw_metal e h') >? zero)
     then zn_ton (conc_metal e h') / zn_ton (raw_metal e h') * f100 else zero)%float /\
  recovery_ag_pct (perf e h') =
    (if g && (ag_kg (raw_metal e h') >? zero)
     then ag_kg (conc_metal e h') / ag_kg (raw_metal e h') * f100 else zero)%float /\
  enrichment_ratio_pb (perf e h') =
    (if g && (pb_grade_pct (raw e h') >? zero)
     then pb_grade_pct (conc e h') / pb_grade_pct (raw e h') else zero)%float /\
  ((dry_weight_ton (raw e h') =? zero)%float = true -> perf e h' = default_perf).
Proof.
  intros Hd h' g. subst g h'.
  rewrite cp_perf, Hd.
  unfold raw_metal, conc_metal, raw, conc. rewrite cp_streams, cp_metals.
  unfold perf_of, raw_metal, conc_metal, raw, conc.
  destruct (dry_weight_ton (streams (metrics2 e h) (raw_ore e)) >? zero)%float eqn:G.
  - cbn [andb yield_pct recovery_pb_pct recovery_zn_pct recovery_ag_pct
         enrichment_ratio_pb default_perf].
    repeat split. intros E. apply gtb_zero_of_eqb in E. congruence.
  - cbn [andb yield_pct recovery_pb_pct recovery_zn_pct recovery_ag_pct
         enrichment_ratio_pb default_perf]. repeat split.
Qed.

Lemma calculate_performance_guards_witness :
  perf demo_entry demo_heap = default_perf /\
  yield_pct (perf demo_entry (calculate_performance demo_entry demo_heap)) =
    (dry_weight_ton (conc demo_entry (calculate_performance demo_entry demo_heap))
     / dry_weight_ton (raw demo_entry (calculate_performance demo_entry demo_heap))
     * f100)%float.
Proof.
  split; [reflexivity|].
  exact (proj1 (calculate_performance_guards demo_entry demo_heap eq_refl)).
Defined.

(** C9.  A second [calculate_performance] leaves the whole heap -- dry
    weights, metal contents and the five metrics -- as the first one left
    it, whatever objects the entry shares. *)
Theorem calculate_performance_idempotent (e : WorkshopShiftEntry) (h : heap) :
  heap_eq (calculate_performance e (calculate_performance e h))
          (calculate_performance e h).
Proof.
  destruct (m2_idem e h (calculate_performance e h) (cp_streams e h) (cp_metals e h))
    as [S M].
  repeat split; intros r.
  - now rewrite cp_streams, S, cp_streams.
  - now rewrite cp_metals, M, cp_metals.
  - destruct (Nat.eq_dec r (performance e)) as [->|Hr].
    + change (perf e (calculate_performance e (calculate_performance e h)) =
              perf e (calculate_performance e h)).
      rewrite !cp_perf.
      rewrite (perf_of_ext e _ (metrics2 e h) _ S M).
      apply perf_of_idem.
    + now rewrite cp_perfs_other.
Qed.

(** C8 (as stated, refuted).  The tailings stream of an entry keeps the
    dry weight 0 it had: its invariant does not hold after
    [calculate_performance]. *)
Lemma tailings_not_recomputed :
  tailings demo_entry = Some 2%nat /\
  ~ balanced (calculate_performance demo_entry demo_heap) 2%nat.
Proof.
  split; [reflexivity|].
  intros [H _]. vm_compute in H. discriminate H.
Qed.

(** C8 (amended).  [calculate_performance] changes no measured attribute;
    after it the invariant holds for the concentrate stream, and for the
    raw-ore stream provided it does not share its metal-content object with
    a different concentrate stream; a tailings stream that is neither of
    the two is left as it was, and so is its metal content unless shared
    with one of them. *)
Theorem calculate_performance_streams (e : WorkshopShiftEntry) (h : heap) :
  let h' := calculate_performance e h in
  (forall r, same_inputs (streams h r) (streams h' r)) /\
  balanced h' (concentrate e) /\
  (metal_content (raw e h) <> metal_content (conc e h) \/ raw_ore e = concentrate e ->
   balanced h' (raw_ore e)) /\
  (forall t, tailings e = Some t -> t <> raw_ore e -> t <> concentrate e ->
     streams h' t = streams h t /\
     (metal_content (streams h t) <> metal_content (raw e h) ->
      metal_content (streams h t) <> metal_content (conc e h) ->
      metals h' (metal_content (streams h' t)) = metals h (metal_content (streams h t)))).
Proof.
  intros h'. subst h'. unfold raw, conc.
  split; [|split; [|split]].
  - intros r. rewrite cp_streams, m2_streams.
    destruct (Nat.eqb_spec r (concentrate e)) as [->|]; [repeat split|].
    destruct (Nat.eqb_spec r (raw_ore e)) as [->|]; repeat split.
  - unfold balanced. rewrite cp_streams, cp_metals, m2_streams, Nat.eqb_refl.
    cbn [with_dry metal_content]. rewrite m2_metals, Nat.eqb_refl. repeat split.
  - intros Hsep. unfold balanced. rewrite cp_streams, cp_metals, m2_streams, Nat.eqb_refl.
    destruct (Nat.eqb_spec (raw_ore e) (concentrate e)) as [E|NE].
    + cbn [with_dry metal_content]. rewrite m2_metals, Nat.eqb_refl.
      repeat split.
    + destruct Hsep as [Hsep|]; [|contradiction].
      cbn [with_dry metal_content]. rewrite m2_metals, Nat.eqb_refl.
      apply Nat.eqb_neq in Hsep. rewrite Hsep. repeat split.
  - intros t _ H1 H2. rewrite cp_streams, cp_metals, m2_streams.
    apply Nat.eqb_neq in H1, H2. rewrite H1, H2. split; [reflexivity|].
    intros H3 H4. rewrite m2_metals.
    apply Nat.eqb_neq in H3, H4. now rewrite H3, H4.
Qed.


(** C1 (as stated, refuted).  On the reference input the silver content is
    the float next below 19.98976, and a stream of infinite wet weight and
    moisture 100 has a dry weight that is not a number, hence not at most
    the wet weight. *)
Lemma calculate_metrics_float_limits :
  (let h' := calculate_metrics 0%nat demo_heap in
   ag_kg (metals h' (metal_content (streams h' 0%nat))) <> of_decimal 1998976 5) /\
  (let h' := calculate_metrics 0%nat unbounded_heap in
   let o := streams h' 0%nat in
   (zero <=? wet_weight_ton o)%float = true /\
   (zero <=? moisture_pct o)%float = true /\
   (moisture_pct o <=? f100)%float = true /\
   (dry_weight_ton o <=? wet_weight_ton o)%float = false).
Proof.
  split.
  - vm_compute. discriminate.
  - vm_compute. repeat split.
Qed.

(** C1 (amended).  After [calculate_metrics] the stream satisfies the four
    equations of the invariant, its measured attributes are unchanged, and
    when its wet weight is a finite float at least 0 and its moisture is
    between 0 and 100 the dry weight is at most the wet weight.  On the
    reference input the dry weight and the lead content are the floats
    124.16 and 4.656, and the silver content is the float
    5626617230451602 * 2^-48, within 10^-14 of 19.98976. *)
Theorem calculate_metrics_balance (h : heap) (s : ref) :
  let h' := calculate_metrics s h in
  let o := streams h' s in
  let m := metals h' (metal_content o) in
  balanced h' s /\
  same_inputs (streams h s) o /\
  (is_float (wet_weight_ton o) -> is_float (moisture_pct o) ->
   is_finite (wet_weight_ton o) = true ->
   (zero <=? wet_weight_ton o)%float = true ->
   (zero <=? moisture_pct o)%float = true ->
   (moisture_pct o <=? f100)%float = true ->
   (dry_weight_ton o <=? wet_weight_ton o)%float = true) /\
  (wet_weight_ton (streams h s) = of_Z 128 ->
   moisture_pct (streams h s) = of_Z 3 ->
   pb_grade_pct (streams h s) = of_decimal 375 2 ->
   ag_grade_gpt (streams h s) = of_Z 161 ->
   dry_weight_ton o = of_decimal 12416 2 /\
   pb_ton m = of_decimal 4656 3 /\
   ag_kg m = S754_finite false 5626617230451602 (-48) /\
   Qlt (Qabs (Qminus (to_Q (ag_kg m)) (1998976 # 100000))) (1 # 100000000000000)).
Proof.
  intros h' o m. subst m o h'.
  pose proof (cm_balanced s h) as B. pose proof (cm_same_inputs s h s) as I.
  split; [exact B|]. split; [exact I|]. split.
  - intros Hw Hm Hfin H0 Hm0 Hm100.
    destruct B as [-> _]. now apply FloatFacts.dry_le_wet.
  - intros Ew Em Ep Ea.
    destruct B as (Bd & Bp & _ & Ba). destruct I as (Iw & Im & Ip & _ & Ia & _).
    rewrite Bp, Ba, Bd, Iw, Im, Ip, Ia, Ew, Em, Ep, Ea.
    repeat split.
Qed.

Lemma calculate_performance_streams_witness :
  balanced (calculate_performance demo_entry demo_heap) (raw_ore demo_entry).
Proof.
  refine (proj1 (proj2 (proj2 (calculate_performance_streams demo_entry demo_heap))) _).
  left. vm_compute. discriminate.
Defined.

Lemma calculate_metrics_balance_witness :
  let o := streams (calculate_metrics 0%nat demo_heap) 0%nat in
  (dry_weight_ton o <=? wet_weight_ton o)%float = true /\
  dry_weight_ton o = of_decimal 12416 2.
Proof.
  pose proof (calculate_metrics_balance demo_heap 0%nat) as (_ & _ & H & R).
  split.
  - apply H; reflexivity.
  - apply R; reflexivity.
Defined.

End WorkshopFacts.

(** ** The [re] fragment and the date resolver *)

Module ReFacts.
Import Re ReSpec.

Lemma backtrack_below {A} (f : nat -> option A) lo k :
  (k < lo)%nat -> backtrack f lo k = None.
Proof.
  intros H. destruct k; simpl; apply Nat.ltb_lt in H; now rewrite H.
Qed.

Lemma backtrack_top {A} (f : nat -> option A) lo k r :
  (lo <= k)%nat -> f k = Some r -> backtrack f lo k = Some r.
Proof.
  intros H E. apply Nat.ltb_ge in H. destruct k; simpl; now rewrite H, E.
Qed.

(** Where every shorter repetition fails, only the longest one counts. *)
Lemma backtrack_skip {A} (f : nat -> option A) lo k :
  (forall j, (lo <= j < k)%nat -> f j = None) ->
  backtrack f lo k = if (k <? lo)%nat then None else f k.
Proof.
  intros H. destruct (Nat.ltb_spec k lo) as [L|G].
  - now apply backtrack_below.
  - destruct (f k) as [r|] eqn:E; [now apply backtrack_top|].
    revert G E. induction k as [|k IH]; intros G E; simpl.
    + apply Nat.ltb_ge in G. now rewrite G, E.
    + assert (G' := G). apply Nat.ltb_ge in G'. rewrite G', E.
      destruct (Nat.eq_dec lo (S k)) as [->|N].
      * apply backtrack_below. lia.
      * apply IH; [intros j Hj; apply H; lia | lia | apply H; lia].
Qed.

Lemma backtrack_some {A} (f : nat -> option A) lo k r :
  backtrack f lo k = Some r -> exists j, (lo <= j <= k)%nat /\ f j = Some r.
Proof.
  induction k as [|k IH]; simpl.
  - destruct (Nat.ltb_spec 0 lo); [discriminate|].
    destruct (f 0%nat) eqn:E; [|discriminate]. intros [= <-]. exists 0%nat. split; [lia|assumption].
  - destruct (Nat.ltb_spec (S k) lo); [discriminate|].
    destruct (f (S k)) eqn:E.
    + intros [= <-]. exists (S k). split; [lia|assumption].
    + intros H'. destruct (IH H') as (j & Hj & Ej). exists j. split; [lia|assumption].
Qed.

Lemma run_le rt a n s : (run rt a (Some n) s <= n)%nat.
Proof.
  revert n. induction s as [|c s IH]; intros [|n]; simpl; try lia.
  destruct (accepts rt a c); [|lia]. specialize (IH n). lia.
Qed.

Lemma run_length rt a hi s : (run rt a hi s <= List.length s)%nat.
Proof.
  revert hi. induction s as [|c s IH]; intros [[|n]|]; simpl; try lia;
    destruct (accepts rt a c); try lia.
  - specialize (IH (Some n)). lia.
  - specialize (IH None). lia.
Qed.

(** The characters of a run are in the class. *)
Lemma run_accepts rt a hi s j c :
  (j < run rt a hi s)%nat -> nth_error s j = Some c -> accepts rt a c = true.
Proof.
  revert hi j. induction s as [|x s IH]; intros hi j.
  - destruct hi as [[|n]|]; simpl; lia.
  - destruct hi as [[|n]|]; simpl; try lia.
    + destruct (accepts rt a x) eqn:E; [|lia]. destruct j; simpl.
      * intros _ [= <-]. exact E.
      * intros H. apply (IH (Some n)). lia.
    + destruct (accepts rt a x) eqn:E; [|lia]. destruct j; simpl.
      * intros _ [= <-]. exact E.
      * intros H. apply (IH None). lia.
Qed.

(** An unbounded run stops at a character outside the class. *)
Lemma run_stops rt a s c :
  nth_error s (run rt a None s) = Some c -> accepts rt a c = false.
Proof.
  induction s as [|x s IH]; simpl; [discriminate|].
  destruct (accepts rt a x) eqn:E; simpl; [exact IH|]. now intros [= <-].
Qed.

Lemma run_all rt a s :
  forallb (accepts rt a) (firstn (run rt a None s) s) = true.
Proof.
  induction s as [|x s IH]; simpl; [reflexivity|].
  destruct (accepts rt a x) eqn:E; simpl; [now rewrite E|reflexivity].
Qed.

(** A repetition of exactly [n] characters. *)
Lemma match_exactly rt n a p s i os cs :
  match_here rt (exactly n a :: p) s i os cs =
  if Nat.eqb (run rt a (Some n) s) n
  then match_here rt p (skipn n s) (i + n) os cs
  else None.
Proof.
  unfold exactly. cbn [match_here].
  pose proof (run_le rt a n s) as L.
  destruct (Nat.eqb_spec (run rt a (Some n) s) n) as [E|N].
  - rewrite E, backtrack_skip by (intros j Hj; lia).
    now rewrite Nat.ltb_irrefl.
  - apply backtrack_below. lia.
Qed.


(** ** Scanning the start positions *)

Lemma search_from_skip rt p subject pre s i :
  (forall k, (k < List.length pre)%nat ->
     match_here rt p (skipn k (pre ++ s)) (i + k) [] [] = None) ->
  search_from rt p subject (pre ++ s) i =
  search_from rt p subject s (i + List.length pre).
Proof.
  revert i. induction pre as [|c pre IH]; intros i H; simpl.
  - now rewrite Nat.add_0_r.
  - pose proof (H 0%nat ltac:(simpl; lia)) as H0. simpl in H0.
    rewrite Nat.add_0_r in H0. rewrite H0.
    rewrite IH; [f_equal; lia|].
    intros k Hk. specialize (H (S k) ltac:(simpl; lia)). simpl in H.
    now replace (S i + k)%nat with (i + S k)%nat by lia.
Qed.

Lemma search_from_here rt p subject s i caps :
  match_here rt p s i [] [] = Some caps ->
  search_from rt p subject s i = Some (List.map (substr subject) (rev caps)).
Proof. intros H. destruct s; simpl; now rewrite H. Qed.

Lemma search_from_inv rt p subject s i gs :
  search_from rt p subject s i = Some gs ->
  exists k caps, (k <= List.length s)%nat /\
    match_here rt p (skipn k s) (i + k) [] [] = Some caps /\
    gs = List.map (substr subject) (rev caps) /\
    forall j, (j < k)%nat -> match_here rt p (skipn j s) (i + j) [] [] = None.
Proof.
  revert i. induction s as [|c s IH]; intros i; simpl.
  - destruct (match_here rt p [] i [] []) as [caps|] eqn:E; [|discriminate].
    intros [= <-]. exists 0%nat, caps. simpl. rewrite Nat.add_0_r.
    repeat split; auto; intros; lia.
  - destruct (match_here rt p (c :: s) i [] []) as [caps|] eqn:E.
    + intros [= <-]. exists 0%nat, caps. simpl. rewrite Nat.add_0_r.
      repeat split; auto; intros; lia.
    + intros H. destruct (IH _ H) as (k & caps & Hk & Hm & Hg & Hmin).
      exists (S k), caps. simpl.
      replace (i + S k)%nat with (S i + k)%nat by lia.
      repeat split; auto; try lia.
      intros [|j] Hj; simpl.
      * now rewrite Nat.add_0_r.
      * replace (i + S j)%nat with (S i + j)%nat by lia. apply Hmin. lia.
Qed.

Lemma search_from_none rt p subject s i :
  (forall k, (k <= List.length s)%nat ->
     match_here rt p (skipn k s) (i + k) [] [] = None) ->
  search_from rt p subject s i = None.
Proof.
  intros H. destruct (search_from rt p subject s i) as [gs|] eqn:E; [|reflexivity].
  apply search_from_inv in E. destruct E as (k & caps & Hk & Hm & _).
  rewrite H in Hm by assumption. discriminate.
Qed.

Lemma search_from_none_inv rt p subject s i :
  search_from rt p subject s i = None ->
  forall k, (k <= List.length s)%nat ->
    match_here rt p (skipn k s) (i + k) [] [] = None.
Proof.
  revert i. induction s as [|c s IH]; intros i; simpl.
  - destruct (match_here rt p [] i [] []) eqn:E; [discriminate|].
    intros _ k Hk. assert (k = 0)%nat by lia. subst k. simpl. now rewrite Nat.add_0_r.
  - destruct (match_here rt p (c :: s) i [] []) eqn:E; [discriminate|].
    intros H [|k] Hk; simpl.
    + now rewrite Nat.add_0_r.
    + replace (i + S k)%nat with (S i + k)%nat by lia. apply IH; [assumption|lia].
Qed.

(** ** Digits at the head of a string *)

Lemma run_digits_at rt n s :
  Nat.eqb (run rt Digit (Some n) s) n = digits_at rt n s.
Proof.
  unfold digits_at. revert s. induction n as [|n IH]; intros s.
  - destruct s; reflexivity.
  - destruct s as [|c s]; [reflexivity|]. cbn [run firstn List.length forallb accepts].
    destruct (is_digit rt c); [|cbn [andb Nat.eqb]; now rewrite andb_false_r].
    cbn [andb Nat.eqb]. apply IH.
Qed.

Lemma digits_at_add rt n m s :
  digits_at rt (n + m) s = digits_at rt n s && digits_at rt m (skipn n s).
Proof.
  unfold digits_at. revert s. induction n as [|n IH]; intros s.
  - simpl. reflexivity.
  - destruct s as [|c s].
    + simpl. destruct m; reflexivity.
    + cbn [Nat.add firstn List.length forallb skipn]. cbn [Nat.eqb].
      specialize (IH s).
      destruct (is_digit rt c); cbn [andb].
      * exact IH.
      * now rewrite !andb_false_r.
Qed.

Lemma digits_at_inv rt n s :
  digits_at rt n s = true ->
  List.length (firstn n s) = n /\ forallb (is_digit rt) (firstn n s) = true.
Proof.
  unfold digits_at. rewrite andb_true_iff, Nat.eqb_eq. auto.
Qed.


(** ** The two date patterns *)

Import Accounting.

Lemma match_open rt p s i os cs :
  match_here rt (Open :: p) s i os cs = match_here rt p s i (i :: os) cs.
Proof. reflexivity. Qed.

Lemma match_close rt p s i o os cs :
  match_here rt (Close :: p) s i (o :: os) cs = match_here rt p s i os ((o, i) :: cs).
Proof. reflexivity. Qed.

Lemma match_nil rt s i os cs : match_here rt [] s i os cs = Some cs.
Proof. reflexivity. Qed.

Lemma match_rep rt a lo hi p s i os cs :
  match_here rt (Rep a lo hi :: p) s i os cs =
  backtrack (fun k => match_here rt p (skipn k s) (i + k) os cs) lo (run rt a hi s).
Proof. reflexivity. Qed.

Lemma match_long rt s i :
  match_here rt long_re s i [] [] =
  if digits_at rt 8 s
  then Some [(i + 4 + 2, i + 4 + 2 + 2); (i + 4, i + 4 + 2); (i, i + 4)]%nat
  else None.
Proof.
  unfold long_re. change 8%nat with (4 + (2 + 2))%nat.
  rewrite !digits_at_add.
  rewrite match_open, match_exactly, run_digits_at.
  destruct (digits_at rt 4 s); [|reflexivity].
  rewrite match_close, match_open, match_exactly, run_digits_at.
  destruct (digits_at rt 2 (skipn 4 s)); [|reflexivity].
  rewrite match_close, match_open, match_exactly, run_digits_at.
  destruct (digits_at rt 2 (skipn 2 (skipn 4 s))); reflexivity.
Qed.

Lemma dot_not_digit rt : is_digit rt 46 = false.
Proof.
  unfold is_digit. now rewrite (decimal_ascii rt 46) by reflexivity.
Qed.

Lemma run_digit_plus_tail rt r i' cs :
  match_here rt [Open; plus Digit; Close] r i' [] cs =
  match run rt Digit None r with
  | O => None
  | S k2 => Some ((i', i' + S k2)%nat :: cs)
  end.
Proof.
  unfold plus. rewrite match_open, match_rep.
  destruct (run rt Digit None r) as [|k2] eqn:E.
  - reflexivity.
  - apply backtrack_top; [lia|reflexivity].
Qed.

Lemma match_short rt s i :
  match_here rt short_re s i [] [] =
  match short_at rt s with
  | Some (mo, dy) =>
      Some [(i + List.length mo + 1, i + List.length mo + 1 + List.length dy);
            (i, i + List.length mo)]%nat
  | None => None
  end.
Proof.
  unfold short_re, short_at. unfold plus at 1. rewrite match_open, match_rep.
  set (k := run rt Digit None s).
  set (f := fun j : nat => _).
  assert (Hf : forall j, (1 <= j)%nat ->
            f j = match skipn j s with
                  | 46%N :: r =>
                      match run rt Digit None r with
                      | O => None
                      | S k2 => Some [((i + j + 1)%nat, (i + j + 1 + S k2)%nat); (i, (i + j)%nat)]
                      end
                  | _ => None
                  end).
  { intros j Hj. unfold f. rewrite match_close. unfold one.
    change (Rep (Chr 46) 1 (Some 1%nat)) with (exactly 1 (Chr 46)). rewrite match_exactly.
    destruct (skipn j s) as [|c r] eqn:Es; [reflexivity|].
    cbn [run accepts]. destruct (N.eqb_spec c 46) as [->|N].
    - cbn [Nat.eqb skipn]. destruct r; cbn [run]; rewrite run_digit_plus_tail; reflexivity.
    - destruct c as [|p]; [reflexivity|].
      do 6 (destruct p as [p|p|]; try reflexivity); congruence. }
  rewrite backtrack_skip.
  - destruct k as [|k'] eqn:Ek; [reflexivity|].
    cbn [Nat.ltb Nat.leb]. rewrite Hf by lia.
    fold k in Ek.
    assert (Hlen : List.length (firstn (S k') s) = S k').
    { apply firstn_length_le. rewrite <- Ek. apply run_length. }
    destruct (skipn (S k') s) as [|c r]; [reflexivity|].
    destruct c as [|p]; [reflexivity|].
    do 6 (destruct p as [p|p|]; try reflexivity).
    destruct (run rt Digit None r) as [|k2] eqn:E2; [reflexivity|].
    assert (Hlen2 : List.length (firstn (S k2) r) = S k2).
    { apply firstn_length_le. rewrite <- E2. apply run_length. }
    now rewrite Hlen, Hlen2.
  - intros j Hj. rewrite Hf by lia.
    destruct (skipn j s) as [|c r] eqn:Es; [reflexivity|].
    assert (Hc : nth_error s j = Some c).
    { rewrite <- (firstn_skipn j s) at 1. rewrite Es.
      rewrite nth_error_app2 by (rewrite length_firstn; lia).
      rewrite length_firstn, Nat.min_l.
      - now rewrite Nat.sub_diag.
      - pose proof (run_length rt Digit None s). fold k in H. lia. }
    pose proof (run_accepts rt Digit None s j c ltac:(fold k; lia) Hc) as Hd.
    cbn [accepts] in Hd.
    destruct (N.eqb_spec c 46) as [->|N].
    + rewrite dot_not_digit in Hd. discriminate.
    + destruct c as [|p]; [reflexivity|].
      do 6 (destruct p as [p|p|]; try reflexivity); congruence.
Qed.


Lemma substr_window subject a n : substr subject (a, (a + n)%nat) = window subject a n.
Proof. unfold substr, window. cbn [fst snd]. f_equal. lia. Qed.

Lemma digits_at_nil rt n k s :
  (List.length s <= k)%nat -> digits_at rt (S n) (skipn k s) = false.
Proof. intros H. now rewrite skipn_all2. Qed.

(** [re.search] with the long pattern finds the leftmost run of eight
    digits. *)
Lemma search_long_at rt s k :
  digits_at rt 8 (skipn k s) = true ->
  (forall j, (j < k)%nat -> digits_at rt 8 (skipn j s) = false) ->
  search rt long_re s =
  Some [window s k 4; window s (k + 4) 2; window s (k + 4 + 2) 2].
Proof.
  intros Hk Hmin.
  assert (Hlen : (k < List.length s)%nat).
  { destruct (Nat.lt_ge_cases k (List.length s)) as [|G]; [assumption|].
    rewrite digits_at_nil in Hk by assumption. discriminate. }
  unfold search. rewrite <- (firstn_skipn k s) at 2.
  rewrite search_from_skip.
  - rewrite length_firstn, Nat.min_l by lia. cbn [Nat.add].
    erewrite search_from_here by (rewrite match_long, Hk; reflexivity).
    cbn [rev app List.map]. now rewrite !substr_window.
  - intros j Hj. rewrite length_firstn, Nat.min_l in Hj by lia.
    rewrite firstn_skipn, match_long, Hmin by assumption. reflexivity.
Qed.

Lemma search_long_inv rt s gs :
  search rt long_re s = Some gs ->
  exists k, digits_at rt 8 (skipn k s) = true /\
    (forall j, (j < k)%nat -> digits_at rt 8 (skipn j s) = false) /\
    gs = [window s k 4; window s (k + 4) 2; window s (k + 4 + 2) 2].
Proof.
  intros H. apply search_from_inv in H. destruct H as (k & caps & Hk & Hm & -> & Hmin).
  cbn [Nat.add] in *. rewrite match_long in Hm.
  destruct (digits_at rt 8 (skipn k s)) eqn:E; [|discriminate].
  injection Hm as <-. exists k. split; [assumption|]. split.
  - intros j Hj. specialize (Hmin j Hj). rewrite match_long in Hmin.
    destruct (digits_at rt 8 (skipn j s)); [discriminate|reflexivity].
  - cbn [rev app List.map]. now rewrite !substr_window.
Qed.

Lemma search_long_none rt s :
  (forall k, digits_at rt 8 (skipn k s) = false) -> search rt long_re s = None.
Proof.
  intros H. apply search_from_none. intros k _. now rewrite match_long, H.
Qed.

Lemma search_long_none_inv rt s :
  search rt long_re s = None -> forall k, digits_at rt 8 (skipn k s) = false.
Proof.
  intros H k. destruct (Nat.le_gt_cases k (List.length s)) as [L|G].
  - pose proof (search_from_none_inv rt long_re s s 0 H k L) as M.
    rewrite match_long in M. destruct (digits_at rt 8 (skipn k s)); [discriminate|reflexivity].
  - apply digits_at_nil. lia.
Qed.

Lemma short_at_nil rt k s : (List.length s <= k)%nat -> short_at rt (skipn k s) = None.
Proof. intros H. now rewrite skipn_all2. Qed.

Lemma short_at_lengths rt s mo dy :
  short_at rt s = Some (mo, dy) ->
  mo = firstn (List.length mo) s /\
  dy = firstn (List.length dy) (skipn (List.length mo + 1) s) /\
  (1 <= List.length mo)%nat /\ (1 <= List.length dy)%nat /\
  forallb (is_digit rt) mo = true /\ forallb (is_digit rt) dy = true.
Proof.
  unfold short_at.
  destruct (run rt Digit None s) as [|k] eqn:Ek; [discriminate|].
  destruct (skipn (S k) s) as [|c r] eqn:Es; [discriminate|].
  destruct c as [|p]; [discriminate|].
  do 6 (destruct p as [p|p|]; try discriminate).
  destruct (run rt Digit None r) as [|k2] eqn:E2; [discriminate|].
  remember (firstn (S k) s) as a eqn:Ea. remember (firstn (S k2) r) as b eqn:Eb.
  intros [= <- <-]. subst a b.
  assert (L1 : List.length (firstn (S k) s) = S k).
  { apply firstn_length_le. rewrite <- Ek. apply run_length. }
  assert (L2 : List.length (firstn (S k2) r) = S k2).
  { apply firstn_length_le. rewrite <- E2. apply run_length. }
  rewrite L1, L2. repeat split; try lia.
  - replace (S k + 1)%nat with (1 + S k)%nat by lia.
    rewrite <- skipn_skipn, Es. reflexivity.
  - rewrite <- Ek. apply (run_all rt Digit).
  - rewrite <- E2. apply (run_all rt Digit).
Qed.

(** [re.search] with the short pattern finds the leftmost short date. *)
Lemma search_short_at rt s k mo dy :
  short_at rt (skipn k s) = Some (mo, dy) ->
  (forall j, (j < k)%nat -> short_at rt (skipn j s) = None) ->
  search rt short_re s = Some [mo; dy].
Proof.
  intros Hk Hmin.
  assert (Hlen : (k < List.length s)%nat).
  { destruct (Nat.lt_ge_cases k (List.length s)) as [|G]; [assumption|].
    rewrite short_at_nil in Hk by assumption. discriminate. }
  destruct (short_at_lengths _ _ _ _ Hk) as (Emo & Edy & _).
  unfold search. rewrite <- (firstn_skipn k s) at 2.
  rewrite search_from_skip.
  - rewrite length_firstn, Nat.min_l by lia. cbn [Nat.add].
    erewrite search_from_here by (rewrite match_short, Hk; reflexivity).
    cbn [rev app List.map]. rewrite !substr_window. unfold window.
    rewrite skipn_skipn in Edy.
    replace (k + List.length mo + 1)%nat with (List.length mo + 1 + k)%nat by lia.
    now rewrite <- Emo, <- Edy.
  - intros j Hj. rewrite length_firstn, Nat.min_l in Hj by lia.
    rewrite firstn_skipn, match_short, Hmin by assumption. reflexivity.
Qed.

Lemma search_short_inv rt s gs :
  search rt short_re s = Some gs ->
  exists k mo dy, short_at rt (skipn k s) = Some (mo, dy) /\ gs = [mo; dy].
Proof.
  intros H. apply search_from_inv in H. destruct H as (k & caps & Hk & Hm & -> & Hmin).
  cbn [Nat.add] in *. rewrite match_short in Hm.
  destruct (short_at rt (skipn k s)) as [[mo dy]|] eqn:E; [|discriminate].
  injection Hm as <-. exists k, mo, dy. split; [assumption|].
  destruct (short_at_lengths _ _ _ _ E) as (Emo & Edy & _).
  cbn [rev app List.map]. rewrite !substr_window. unfold window.
  rewrite skipn_skipn in Edy.
  replace (k + List.length mo + 1)%nat with (List.length mo + 1 + k)%nat by lia.
  now rewrite <- Emo, <- Edy.
Qed.

Lemma search_short_none rt s :
  (forall k, short_at rt (skipn k s) = None) -> search rt short_re s = None.
Proof.
  intros H. apply search_from_none. intros k _. now rewrite match_short, H.
Qed.


(** ** Characters every runtime knows *)

Lemma decimal_known rt c : known_char c = true -> decimal rt c = ascii_decimal c.
Proof.
  unfold known_char. intros H. apply orb_true_iff in H. destruct H as [H|H].
  - apply N.ltb_lt in H. now apply decimal_ascii.
  - apply andb_true_iff in H. destruct H as [H1 H2].
    apply N.leb_le in H1, H2. rewrite decimal_cjk by lia.
    symmetry. apply Demo.ascii_decimal_cjk. lia.
Qed.

Lemma is_digit_known rt c : known_char c = true -> is_digit rt c = is_digit Demo.rt c.
Proof. intros H. unfold is_digit. now rewrite decimal_known. Qed.

Lemma digit_value_known rt c :
  known_char c = true -> digit_value rt c = digit_value Demo.rt c.
Proof. intros H. unfold digit_value. now rewrite decimal_known. Qed.

Lemma known_firstn n s : known s = true -> known (firstn n s) = true.
Proof.
  unfold known. revert s. induction n as [|n IH]; intros [|c s]; simpl; auto.
  intros H. apply andb_true_iff in H. destruct H as [-> H]. now apply IH.
Qed.

Lemma known_skipn n s : known s = true -> known (skipn n s) = true.
Proof.
  unfold known. revert s. induction n as [|n IH]; intros [|c s]; simpl; auto.
  intros H. apply andb_true_iff in H. destruct H as [_ H]. now apply IH.
Qed.

Lemma all_digits_known rt s :
  known s = true -> forallb (is_digit rt) s = forallb (is_digit Demo.rt) s.
Proof.
  unfold known. induction s as [|c s IH]; simpl; [reflexivity|].
  intros H. apply andb_true_iff in H. destruct H as [Hc H].
  now rewrite (is_digit_known rt c Hc), IH.
Qed.

Lemma digits_at_known rt n s :
  known s = true -> digits_at rt n s = digits_at Demo.rt n s.
Proof.
  intros H. unfold digits_at. now rewrite (all_digits_known rt) by now apply known_firstn.
Qed.

Lemma run_digit_known rt hi s :
  known s = true -> run rt Digit hi s = run Demo.rt Digit hi s.
Proof.
  unfold known. revert hi. induction s as [|c s IH]; intros hi; [reflexivity|].
  simpl forallb. intros H. apply andb_true_iff in H. destruct H as [Hc H].
  destruct hi as [[|n]|]; cbn [run accepts]; try reflexivity;
    rewrite (is_digit_known rt c Hc); destruct (is_digit Demo.rt c); try reflexivity;
    f_equal; now apply IH.
Qed.

Lemma short_at_known rt s :
  known s = true -> short_at rt s = short_at Demo.rt s.
Proof.
  intros H. unfold short_at. rewrite (run_digit_known rt None s H).
  destruct (run Demo.rt Digit None s) as [|k]; [reflexivity|].
  pose proof (known_skipn (S k) s H) as Hs.
  destruct (skipn (S k) s) as [|c r]; [reflexivity|].
  assert (Hr : known r = true).
  { unfold known in *. simpl in Hs. apply andb_true_iff in Hs. tauto. }
  now rewrite (run_digit_known rt None r Hr).
Qed.

(** Checking every start position of a known string. *)
Lemma no_digits_known rt n s :
  known s = true ->
  forallb (fun j => negb (digits_at Demo.rt (S n) (skipn j s)))
    (seq 0 (S (List.length s))) = true ->
  forall j, digits_at rt (S n) (skipn j s) = false.
Proof.
  intros K H j. destruct (Nat.lt_ge_cases j (S (List.length s))) as [L|G].
  - rewrite forallb_forall in H. specialize (H j). rewrite in_seq in H.
    rewrite digits_at_known by now apply known_skipn.
    apply negb_true_iff. apply H. lia.
  - apply digits_at_nil. lia.
Qed.

Lemma no_short_known rt s k :
  known s = true ->
  forallb (fun j => match short_at Demo.rt (skipn j s) with None => true | _ => false end)
    (seq 0 k) = true ->
  forall j, (j < k)%nat -> short_at rt (skipn j s) = None.
Proof.
  intros K H j L. rewrite forallb_forall in H. specialize (H j). rewrite in_seq in H.
  rewrite short_at_known by now apply known_skipn.
  destruct (short_at Demo.rt (skipn j s)); [|reflexivity].
  discriminate H. lia.
Qed.

(** ** Numerals *)

Lemma numeral_aux_digits rt fuel n :
  forallb (fun c => is_digit rt c && known_char c) (numeral_aux fuel n) = true.
Proof.
  revert n. induction fuel as [|fuel IH]; intros n; [reflexivity|].
  assert (D : forall d, (d < 10)%N -> is_digit rt (48 + d) && known_char (48 + d) = true).
  { intros d Hd. unfold is_digit, known_char.
    rewrite decimal_ascii by lia. unfold ascii_decimal.
    destruct (N.leb_spec 48 (48 + d)); [|lia].
    destruct (N.leb_spec (48 + d) 57); [|lia].
    destruct (N.ltb_spec (48 + d) 128); [reflexivity|lia]. }
  cbn [numeral_aux]. destruct (N.ltb_spec n 10) as [L|G].
  - cbn [forallb]. now rewrite D.
  - rewrite forallb_app, IH. cbn [forallb]. rewrite D; [reflexivity|].
    apply N.mod_lt. lia.
Qed.

Lemma numeral_digits rt n : forallb (is_digit rt) (numeral n) = true.
Proof.
  pose proof (numeral_aux_digits rt (S (N.to_nat (N.log2 n))) n) as H.
  unfold numeral. rewrite forallb_forall in *. intros c Hc.
  specialize (H c Hc). now apply andb_true_iff in H.
Qed.

Lemma numeral_aux_nonempty fuel n : (1 <= List.length (numeral_aux (S fuel) n))%nat.
Proof.
  cbn [numeral_aux]. destruct (n <? 10)%N; [simpl; lia|].
  rewrite length_app. simpl. lia.
Qed.

Lemma log2_ge n k : (2 ^ k <= n)%N -> (k <= N.log2 n)%N.
Proof.
  intros H. apply N.log2_le_pow2; [|assumption].
  assert (0 < 2 ^ k)%N by (apply N.neq_0_lt_0, N.pow_nonzero; lia). lia.
Qed.

(** The width of a numeral: one digit below 10, two below 100, at least
    three from 100 on. *)
Lemma numeral_length n :
  ((n < 10)%N -> List.length (numeral n) = 1%nat) /\
  ((10 <= n < 100)%N -> List.length (numeral n) = 2%nat) /\
  ((100 <= n)%N -> (3 <= List.length (numeral n))%nat).
Proof.
  unfold numeral. repeat split.
  - intros H. cbn [numeral_aux]. apply N.ltb_lt in H. now rewrite H.
  - intros [H1 H2].
    pose proof (log2_ge n 3 ltac:(simpl; lia)) as L.
    destruct (N.to_nat (N.log2 n)) as [|f] eqn:E; [lia|].
    cbn [numeral_aux]. apply N.ltb_ge in H1. rewrite H1.
    assert (Hq : (n / 10 < 10)%N) by (apply N.Div0.div_lt_upper_bound; lia).
    apply N.ltb_lt in Hq. rewrite Hq. reflexivity.
  - intros H.
    pose proof (log2_ge n 6 ltac:(simpl; lia)) as L.
    destruct (N.to_nat (N.log2 n)) as [|[|f]] eqn:E; try lia.
    cbn [numeral_aux].
    assert (H1 : (n <? 10)%N = false) by (apply N.ltb_ge; lia). rewrite H1.
    assert (Hq : (10 <= n / 10)%N) by (apply N.div_le_lower_bound; lia).
    apply N.ltb_ge in Hq. rewrite Hq.
    rewrite !length_app. simpl.
    pose proof (numeral_aux_nonempty f (n / 10 / 10)).
    destruct f; simpl in *; lia.
Qed.


Lemma format_02d_facts rt n :
  forallb (is_digit rt) (format_02d n) = true /\
  (2 <= List.length (format_02d n))%nat /\
  ((n < 100)%N -> List.length (format_02d n) = 2%nat) /\
  ((100 <= n)%N -> (3 <= List.length (format_02d n))%nat).
Proof.
  unfold format_02d. pose proof (numeral_length n) as (L1 & L2 & L3).
  pose proof (numeral_digits rt n) as D.
  assert (Z0 : is_digit rt 48 = true).
  { unfold is_digit. now rewrite decimal_ascii by reflexivity. }
  destruct (N.lt_ge_cases n 10) as [A|A].
  - rewrite (L1 A). cbn [Nat.sub repeat app]. cbn [forallb]. rewrite Z0, D.
    cbn [List.length]. rewrite (L1 A). repeat split; lia.
  - destruct (N.lt_ge_cases n 100) as [B|B].
    + rewrite (L2 (conj A B)). cbn [Nat.sub repeat app]. rewrite D, (L2 (conj A B)).
      repeat split; lia.
    + specialize (L3 B).
      replace (2 - List.length (numeral n))%nat with 0%nat by lia.
      cbn [repeat app]. rewrite D. repeat split; lia.
Qed.

Lemma canonical_date_length rt s : canonical_date rt s = true -> List.length s = 10%nat.
Proof.
  unfold canonical_date.
  do 10 (destruct s as [|? s]; try discriminate). destruct s; [reflexivity|discriminate].
Qed.

Lemma canonical_date_parts rt y m d :
  List.length y = 4%nat -> List.length m = 2%nat -> List.length d = 2%nat ->
  forallb (is_digit rt) y = true -> forallb (is_digit rt) m = true ->
  forallb (is_digit rt) d = true ->
  canonical_date rt (y ++ dash ++ m ++ dash ++ d) = true.
Proof.
  intros Ly Lm Ld Dy Dm Dd.
  do 4 (destruct y as [|? y]; try discriminate). destruct y; [|discriminate].
  do 2 (destruct m as [|? m]; try discriminate). destruct m; [|discriminate].
  do 2 (destruct d as [|? d]; try discriminate). destruct d; [|discriminate].
  cbn [forallb andb] in *. cbn [app dash canonical_date forallb].
  repeat match goal with H : _ && _ = true |- _ => apply andb_true_iff in H; destruct H end.
  repeat match goal with H : is_digit _ _ = true |- _ => rewrite H; clear H end.
  reflexivity.
Qed.

End ReFacts.

Module AccountingFacts.
Import Re ReSpec ReFacts Accounting.

Lemma window_digits rt s k n m :
  digits_at rt (n + m) (skipn k s) = true ->
  List.length (window s k n) = n /\ forallb (is_digit rt) (window s k n) = true /\
  digits_at rt m (skipn (k + n) s) = true.
Proof.
  rewrite digits_at_add, andb_true_iff. intros [H1 H2].
  apply digits_at_inv in H1. destruct H1 as [L D]. unfold window.
  rewrite skipn_skipn in H2. rewrite (Nat.add_comm k n). auto.
Qed.

(** The result on the long path. *)
Lemma get_date_long rt filepath k :
  let filename := Path.basename filepath in
  let parent_dir := Path.basename (Path.dirname filepath) in
  digits_at rt 8 (skipn k filename) = true ->
  (forall j, (j < k)%nat -> digits_at rt 8 (skipn j filename) = false) ->
  get_date_from_filename rt filepath =
  Ok (Some ((if str_eqb (window filename k 4) (lit "2006")
                && contains (lit "2026") parent_dir
             then lit "2026" else window filename k 4)
            ++ dash ++ window filename (k + 4) 2 ++ dash ++ window filename (k + 4 + 2) 2)).
Proof.
  intros filename parent_dir Hk Hmin. unfold get_date_from_filename.
  fold filename. fold parent_dir.
  rewrite (search_long_at rt filename k Hk Hmin).
  destruct (contains (lit "2026") parent_dir); cbn [N.eqb Pos.eqb];
    rewrite ?andb_true_r, ?andb_false_r; reflexivity.
Qed.

(** The result on the short path. *)
Lemma get_date_short rt filepath k mo dy m d :
  let filename := Path.basename filepath in
  let parent_dir := Path.basename (Path.dirname filepath) in
  (forall j, digits_at rt 8 (skipn j filename) = false) ->
  short_at rt (skipn k filename) = Some (mo, dy) ->
  (forall j, (j < k)%nat -> short_at rt (skipn j filename) = None) ->
  py_int rt mo = Ok m -> py_int rt dy = Ok d ->
  get_date_from_filename rt filepath =
  Ok (Some (numeral (if contains (lit "2026") parent_dir then 2026 else 2025)
            ++ dash ++ format_02d m ++ dash ++ format_02d d)).
Proof.
  intros filename parent_dir Hno Hk Hmin Hm Hd. unfold get_date_from_filename.
  fold filename. fold parent_dir.
  rewrite (search_long_none rt filename Hno).
  rewrite (search_short_at rt filename k mo dy Hk Hmin).
  rewrite Hm, Hd. reflexivity.
Qed.


Lemma fold_digits_known rt s acc :
  known s = true ->
  fold_left (fun a c => (10 * a + digit_value rt c)%N) s acc =
  fold_left (fun a c => (10 * a + digit_value Demo.rt c)%N) s acc.
Proof.
  unfold known. revert acc. induction s as [|c s IH]; intros acc; [reflexivity|].
  simpl forallb. intros H. apply andb_true_iff in H. destruct H as [Hc H].
  cbn [fold_left]. rewrite (digit_value_known rt c Hc). now apply IH.
Qed.

(** Every runtime reads a short numeral of known digits in the same way. *)
Lemma py_int_known rt s :
  known s = true -> (List.length s <= 640)%nat -> py_int rt s = py_int Demo.rt s.
Proof.
  intros K L. unfold py_int.
  assert (E : forall r : runtime,
             (negb (int_max_str_digits r =? 0) &&
              (int_max_str_digits r <? N.of_nat (List.length s)))%N = false).
  { intros r. destruct (int_limit_threshold r) as [Z|G].
    - rewrite Z. reflexivity.
    - apply andb_false_iff. right. apply N.ltb_ge. lia. }
  rewrite !E. now rewrite fold_digits_known.
Qed.

(** C4.  Where the file name holds eight consecutive digits, the leftmost
    such run gives the date: its first four digits, a hyphen, the next two,
    a hyphen, the last two; a year 2006 is replaced by 2026 when the name
    of the parent directory contains 2026.  The accounting table
    20260127.xlsx in a directory containing 2026 resolves to 2026-01-27. *)
Theorem long_date_resolved (rt : runtime) (filepath : str) (k : nat) :
  let filename := Path.basename filepath in
  let parent_dir := Path.basename (Path.dirname filepath) in
  (digits_at rt 8 (skipn k filename) = true ->
   (forall j, (j < k)%nat -> digits_at rt 8 (skipn j filename) = false) ->
   get_date_from_filename rt filepath =
   Ok (Some ((if str_eqb (window filename k 4) (lit "2006")
                 && contains (lit "2026") parent_dir
              then lit "2026" else window filename k 4)
             ++ dash ++ window filename (k + 4) 2 ++ dash
             ++ window filename (k + 4 + 2) 2))) /\
  (filename = hsb ++ lit "20260127.xlsx" ->
   contains (lit "2026") parent_dir = true ->
   get_date_from_filename rt filepath = Ok (Some (lit "2026-01-27"))).
Proof.
  intros filename parent_dir. split.
  - apply get_date_long.
  - intros E _.
    rewrite (get_date_long rt filepath 3); fold filename; rewrite E.
    + reflexivity.
    + now rewrite digits_at_known.
    + intros j Hj. rewrite digits_at_known by now apply known_skipn.
      destruct j as [|[|[|j]]]; try lia; reflexivity.
Qed.

Lemma long_date_resolved_witness :
  get_date_from_filename Demo.rt (lit "data/2026/" ++ hsb ++ lit "20060127.xlsx") =
  Ok (Some (lit "2026-01-27")).
Proof.
  refine (proj1 (long_date_resolved Demo.rt
                   (lit "data/2026/" ++ hsb ++ lit "20060127.xlsx") 3) _ _).
  - reflexivity.
  - intros j Hj. destruct j as [|[|[|j]]]; try lia; reflexivity.
Defined.

(** C7 (as stated, refuted).  A parent directory named with the year 2024
    does not change the year of a short date: the default 2025 is used. *)
Lemma short_date_other_year :
  contains (lit "2024")
    (Path.basename (Path.dirname (lit "reports2024/" ++ hsb ++ lit "8.19.xlsx"))) = true /\
  get_date_from_filename Demo.rt (lit "reports2024/" ++ hsb ++ lit "8.19.xlsx") =
  Ok (Some (lit "2025-08-19")).
Proof. split; reflexivity. Qed.

(** C7 (amended).  Where the file name holds no run of eight digits, its
    leftmost short date -- digits, a dot, digits -- gives the month and the
    day, written with at least two digits, and the year is 2026 when the
    name of the parent directory contains 2026 and 2025 otherwise, whatever
    other year the directory names.  The accounting table 8.19.xlsx in a
    directory without 2026 resolves to 2025-08-19. *)
Theorem short_date_resolved (rt : runtime) (filepath : str) (k : nat)
    (mo dy : str) (m d : N) :
  let filename := Path.basename filepath in
  let parent_dir := Path.basename (Path.dirname filepath) in
  ((forall j, digits_at rt 8 (skipn j filename) = false) ->
   short_at rt (skipn k filename) = Some (mo, dy) ->
   (forall j, (j < k)%nat -> short_at rt (skipn j filename) = None) ->
   py_int rt mo = Ok m -> py_int rt dy = Ok d ->
   get_date_from_filename rt filepath =
   Ok (Some (numeral (if contains (lit "2026") parent_dir then 2026 else 2025)
             ++ dash ++ format_02d m ++ dash ++ format_02d d))) /\
  (filename = hsb ++ lit "8.19.xlsx" ->
   contains (lit "2026") parent_dir = false ->
   get_date_from_filename rt filepath = Ok (Some (lit "2025-08-19"))).
Proof.
  intros filename parent_dir. split.
  - apply get_date_short.
  - intros E C.
    rewrite (get_date_short rt filepath 3 (lit "8") (lit "19") 8 19);
      fold filename; fold parent_dir; rewrite ?E, ?C.
    + reflexivity.
    + now apply no_digits_known.
    + now rewrite short_at_known.
    + now apply no_short_known.
    + now rewrite py_int_known by (try reflexivity; simpl; lia).
    + now rewrite py_int_known by (try reflexivity; simpl; lia).
Qed.

Lemma short_date_resolved_witness :
  get_date_from_filename Demo.rt (lit "data/2026/9.01.xlsx") =
  Ok (Some (lit "2026-09-01")).
Proof.
  refine (proj1 (short_date_resolved Demo.rt (lit "data/2026/9.01.xlsx") 0
                   (lit "9") (lit "01") 9 1) _ _ _ _ _).
  - now apply no_digits_known.
  - reflexivity.
  - intros j Hj. lia.
  - reflexivity.
  - reflexivity.
Defined.


(** C6 (as stated, refuted).  A short date whose day has three digits
    resolves to a date that is not canonical. *)
Lemma short_date_not_canonical :
  get_date_from_filename Demo.rt (lit "reports/1.100.xlsx") =
  Ok (Some (lit "2025-01-100")) /\
  canonical_date Demo.rt (lit "2025-01-100") = false.
Proof. split; reflexivity. Qed.

(** C6 (amended).  A date resolved from a run of eight digits is
    canonical.  A date resolved from a short date is the year 2025 or 2026,
    a hyphen, the month number, a hyphen, the day number, each number
    written in digits with at least two of them; it is canonical exactly
    when both numbers are below 100. *)
Theorem resolved_date_shape (rt : runtime) (filepath r : str) :
  get_date_from_filename rt filepath = Ok (Some r) ->
  let filename := Path.basename filepath in
  ((exists k, digits_at rt 8 (skipn k filename) = true) /\
   canonical_date rt r = true) \/
  ((forall k, digits_at rt 8 (skipn k filename) = false) /\
   exists yr mo dy,
     (yr = 2025 \/ yr = 2026)%N /\
     r = numeral yr ++ dash ++ format_02d mo ++ dash ++ format_02d dy /\
     forallb (is_digit rt) (format_02d mo) = true /\
     forallb (is_digit rt) (format_02d dy) = true /\
     (2 <= List.length (format_02d mo))%nat /\
     (2 <= List.length (format_02d dy))%nat /\
     (canonical_date rt r = true <-> (mo < 100 /\ dy < 100)%N)).
Proof.
  intros H filename. unfold get_date_from_filename in H. fold filename in H.
  destruct (search rt long_re filename) as [gs|] eqn:EL.
  - left. apply search_long_inv in EL. destruct EL as (k & Hk & _ & ->).
    split; [now exists k|].
    injection H as <-.
    change 8%nat with (4 + (2 + 2))%nat in Hk.
    destruct (window_digits rt filename k 4 (2 + 2) Hk) as (Ly & Dy & Hk2).
    destruct (window_digits rt filename (k + 4) 2 2 Hk2) as (Lm & Dm & Hk3).
    change 2%nat with (2 + 0)%nat in Hk3 at 1.
    destruct (window_digits rt filename (k + 4 + 2) 2 0 Hk3) as (Ld & Dd & _).
    apply canonical_date_parts; try assumption.
    + destruct (_ && _); [reflexivity|assumption].
    + destruct (_ && _); [|assumption].
      now rewrite all_digits_known.
  - right. split; [now apply search_long_none_inv|].
    destruct (search rt short_re filename) as [gs|] eqn:ES.
    2:{ discriminate. }
    apply search_short_inv in ES. destruct ES as (k & mo & dy & _ & ->).
    destruct (py_int rt mo) as [m|] eqn:Em; [|discriminate].
    destruct (py_int rt dy) as [d|] eqn:Ed; [|discriminate].
    cbn [bind] in H. injection H as <-.
    set (yr := if contains (lit "2026") _ then 2026%N else 2025%N).
    exists yr, m, d.
    pose proof (format_02d_facts rt m) as (Dm & Gm & Sm & Bm).
    pose proof (format_02d_facts rt d) as (Dd & Gd & Sd & Bd).
    assert (Hyr : (yr = 2025 \/ yr = 2026)%N).
    { unfold yr. destruct (contains _ _); auto. }
    assert (Ly : List.length (numeral yr) = 4%nat)
      by (destruct Hyr as [-> | ->]; reflexivity).
    split; [assumption|]. split; [reflexivity|].
    do 4 (split; [assumption|]). split.
    + intros C. apply canonical_date_length in C.
      rewrite !length_app, Ly in C. cbn [List.length dash app] in C.
      rewrite length_app in C. cbn [List.length] in C.
      destruct (N.lt_ge_cases m 100) as [A|A]; [|specialize (Bm A); lia].
      destruct (N.lt_ge_cases d 100) as [B|B]; [|specialize (Bd B); lia].
      split; assumption.
    + intros [A B]. apply canonical_date_parts; auto.
      apply numeral_digits.
Qed.

Lemma resolved_date_shape_witness :
  canonical_date Demo.rt (lit "2026-01-27") = true.
Proof.
  destruct (resolved_date_shape Demo.rt (lit "data/2026/" ++ hsb ++ lit "20060127.xlsx")
              (lit "2026-01-27") eq_refl) as [[_ C]|[N _]].
  - exact C.
  - specialize (N 3%nat). discriminate N.
Defined.

End AccountingFacts.

(** ** The extractors *)

Module ExtractFacts.
Import Accounting August ExtractSpec ExtractTrace.

Lemma leb_zero_gtb x : is_nan x = false -> ((x <=? zero)%float = false <-> (x >? zero)%float = true).
Proof. destruct x as [s|[|]| |[|] m e]; cbn; intuition congruence. Qed.

(** [get_cell] never raises; its value is 0.0 unless the cell exists, is
    not null and [float] accepts it. *)
Lemma get_cell_guarded rt df r c :
  match iloc df r c with
  | Ok v => if notnull v
            then match py_float rt v with
                 | Ok x => get_cell rt df r c = x
                 | Raise _ => get_cell rt df r c = zero
                 end
            else get_cell rt df r c = zero
  | Raise _ => get_cell rt df r c = zero
  end.
Proof.
  unfold get_cell. destruct (iloc df r c) as [v|e]; cbn [bind]; [|reflexivity].
  destruct (notnull v); [|reflexivity].
  destruct (py_float rt v); reflexivity.
Qed.

(** C5 (the code departs from it).  [get_val] is called on the grade
    cells of a report whose header was read.  For an empty grade cell it
    returns NaN, not 0.0, and the payload carries the NaN; on a report
    that ends after its header it raises IndexError, and the file gives
    no payload.  [get_cell] returns 0.0 in both cases. *)
Theorem get_val_unguarded :
  (iloc august_sheet 4 2 = Ok (CFloat nan) /\
   get_val Demo.rt august_sheet 4 2 = Ok nan /\
   get_cell Demo.rt august_sheet 4 2 = zero /\
   exists p, August.parse_file Demo.rt (fun _ => []) (Ok august_sheet) august_path = inl p /\
             r_znGrade (rawOre p) = JFloat nan) /\
  (iloc august_head 1 0 = Ok (CStr august_header) /\
   get_val Demo.rt august_head 4 1 = Raise IndexError /\
   get_cell Demo.rt august_head 4 1 = zero /\
   August.parse_file Demo.rt (fun _ => []) (Ok august_head) august_path =
     inr (ErrorParsing august_path IndexError)).
Proof.
  split.
  - split; [reflexivity|]. split; [reflexivity|]. split; [reflexivity|].
    eexists. split; [vm_compute; reflexivity|reflexivity].
  - split; [reflexivity|]. split; [reflexivity|]. split; [reflexivity|].
    vm_compute. reflexivity.
Qed.

(** C3 (the code departs from it).  The text NAN is kept as text by
    [pd.read_excel] and [float] reads it as NaN.  A lead-grade cell holding
    it evaluates to NaN, which is not above 0, and yet the block of the
    first shift is uploaded, with the lead grade NaN.  (The text nan is a
    NA marker: its cell is read as empty and the block is skipped.) *)
Theorem nan_lead_grade_uploaded :
  let df := sheet_of (CStr (lit "NAN")) in
  let v := get_cell Demo.rt df 4 (col_start first_shift) in
  kept_as_text (lit "NAN") = true /\
  v = nan /\ (v >? zero)%float = false /\
  (exists p, Accounting.parse_file Demo.rt accept (Ok df) report_path =
             [PrintProcessing report_path (lit "2025-08-19");
              PrintUploading (name first_shift); Post p] /\
             shiftType p = [30002; 29677]%N /\
             r_pbGrade (rawOre p) = JFloat nan) /\
  kept_as_text (lit "nan") = false /\
  Accounting.parse_file Demo.rt accept (Ok (sheet_of empty)) report_path =
    [PrintProcessing report_path (lit "2025-08-19")].
Proof.
  cbv zeta. split; [reflexivity|]. split; [reflexivity|]. split; [reflexivity|].
  split; [|split; [reflexivity|vm_compute; reflexivity]].
  eexists. split; [vm_compute; reflexivity|]. split; reflexivity.
Qed.

(** C10 (as stated it fails).  The text inf is kept as text by
    [pd.read_excel], and [float] accepts it: a lead-grade cell holding it
    is not coerced to 0.0 but read as infinity, and the block is uploaded
    with that lead grade. *)
Theorem text_lead_grade_not_coerced :
  let df := sheet_of (CStr (lit "inf")) in
  kept_as_text (lit "inf") = true /\
  get_cell Demo.rt df 4 (col_start first_shift) = inf /\
  exists p, Accounting.parse_file Demo.rt accept (Ok df) report_path =
            [PrintProcessing report_path (lit "2025-08-19");
             PrintUploading (name first_shift); Post p] /\
            r_pbGrade (rawOre p) = JFloat inf.
Proof.
  cbv zeta. split; [reflexivity|]. split; [reflexivity|].
  eexists. split; [vm_compute; reflexivity|reflexivity].
Qed.

(** C10 (amended).  A lead-grade cell that is missing, empty ([NaN] or
    [None]) or that [float] rejects evaluates to 0.0; the block then
    contributes nothing, neither a line nor an upload, exactly like a
    block whose lead grade evaluates to 0.0 for any other reason. *)
Theorem unreadable_lead_grade_skipped (rt : runtime) (post : payload -> response)
    (df : grid) (date_str : str) (sh : shift) :
  unreadable rt df 4 (col_start sh) ->
  get_cell rt df 4 (col_start sh) = zero /\
  shift_events rt post df date_str sh = [] /\
  forall df', get_cell rt df' 4 (col_start sh) = zero ->
    shift_events rt post df' date_str sh = shift_events rt post df date_str sh.
Proof.
  unfold unreadable. intros Hbad.
  assert (Z : get_cell rt df 4 (col_start sh) = zero).
  { pose proof (get_cell_guarded rt df 4 (col_start sh)) as G.
    destruct (iloc df 4 (col_start sh)) as [v|e]; [|exact G].
    destruct (notnull v) eqn:N; [|exact G].
    destruct Hbad as [?|[e He]]; [discriminate|]. now rewrite He in G. }
  assert (S : forall d, get_cell rt d 4 (col_start sh) = zero ->
                        shift_events rt post d date_str sh = []).
  { intros d Hd. unfold shift_events. now rewrite Hd. }
  split; [exact Z|]. split; [now apply S|].
  intros df' Hd. now rewrite !S.
Qed.

Lemma unreadable_lead_grade_skipped_witness :
  shift_events Demo.rt accept (sheet_of (CStr (lit "-"))) (lit "2025-08-19") first_shift = [] /\
  shift_events Demo.rt accept [] (lit "2025-08-19") first_shift = [].
Proof.
  split.
  - refine (proj1 (proj2 (unreadable_lead_grade_skipped Demo.rt accept
              (sheet_of (CStr (lit "-"))) (lit "2025-08-19") first_shift _))).
    right. exists ValueError. reflexivity.
  - refine (proj1 (proj2 (unreadable_lead_grade_skipped Demo.rt accept
              [] (lit "2025-08-19") first_shift _))).
    exact I.
Defined.

(** X1.  The presence gate, for a lead grade that is a number: the block is
    skipped, without a line, exactly when the grade is not above 0, and
    otherwise announced and uploaded once, with the resolved date, the
    shift's name, that lead grade and zinc grades 0. *)
Theorem presence_gate (rt : runtime) (post : payload -> response) (df : grid)
    (date_str : str) (sh : shift) :
  let v := get_cell rt df 4 (col_start sh) in
  let evs := shift_events rt post df date_str sh in
  is_nan v = false ->
  ((v >? zero)%float = false -> evs = []) /\
  ((v >? zero)%float = true ->
   exists p, posts evs = [p] /\
     firstn 2 evs = [PrintUploading (name sh); Post p] /\
     shiftDate p = date_str /\ shiftType p = name sh /\
     r_pbGrade (rawOre p) = JFloat v /\
     r_znGrade (rawOre p) = JInt 0 /\ c_znGrade (concentrate p) = JInt 0 /\
     t_znGrade (tailings p) = JInt 0).
Proof.
  intros v evs Hn. subst evs. unfold shift_events. fold v.
  pose proof (leb_zero_gtb v Hn) as G.
  destruct (v <=? zero)%float eqn:L.
  - split; [reflexivity|]. intros Hg. apply G in Hg. discriminate.
  - split; [intros Hg; destruct G as [G _]; rewrite G in Hg by reflexivity; discriminate|].
    intros _. eexists. cbn [posts firstn].
    split; [|repeat split].
    destruct (post _) as [code text|]; [destruct (_ || _)|]; reflexivity.
Qed.

Lemma presence_gate_witness :
  shift_events Demo.rt accept (sheet_of (CFloat zero)) (lit "2025-08-19") first_shift = [].
Proof.
  refine (proj1 (presence_gate Demo.rt accept (sheet_of (CFloat zero)) (lit "2025-08-19")
                   first_shift _) _); reflexivity.
Defined.

End ExtractFacts.

Module FloatSignFacts.
Import FloatSpec FloatFacts FloatSign.

(** Rounding keeps the sign. *)
Lemma round_aux_sign s m e l :
  0 <= m ->
  match binary_round_aux prec emax s m e l with
  | S754_zero s' | S754_infinity s' | S754_finite s' _ _ => s' = s
  | S754_nan => False
  end.
Proof.
  intros Hm. unfold binary_round_aux, shr_fexp.
  pose proof (shr_spec m l e (fexp prec emax (Zdigits2 m + e) - e) Hm) as S1.
  cbn zeta in S1. destruct (shr _ e _) as [st1 e1]. destruct S1 as (_ & Hm1 & _).
  destruct (round_nearest_even_bounds (shr_m st1) (loc_of_shr_record st1)) as [[R1 _] _].
  set (m2 := round_nearest_even (shr_m st1) (loc_of_shr_record st1)) in *.
  assert (Hm1p : 0 <= shr_m st1).
  { rewrite Hm1. apply Z.div_pos; [lia|]. apply Z.pow_pos_nonneg; lia. }
  assert (Hm2 : 0 <= m2) by lia.
  pose proof (shr_spec m2 loc_Exact e1 (fexp prec emax (Zdigits2 m2 + e1) - e1) Hm2) as S2.
  cbn zeta in S2. destruct (shr _ e1 _) as [st2 e2]. destruct S2 as (_ & Hm3 & _).
  assert (Hm3p : 0 <= shr_m st2).
  { rewrite Hm3. apply Z.div_pos; [lia|]. apply Z.pow_pos_nonneg; lia. }
  destruct (shr_m st2) as [|p|p]; try reflexivity; [|lia].
  destruct (e2 <=? emax - prec); reflexivity.
Qed.

Lemma not_negative_round s m e l :
  0 <= m -> not_negative (binary_round_aux prec emax s m e l) = true \/ s = true.
Proof.
  intros Hm. pose proof (round_aux_sign s m e l Hm) as H.
  destruct (binary_round_aux prec emax s m e l) as [s'|s'| |s' m' e']; cbn;
    try contradiction; auto; subst s'; destruct s; auto.
Qed.

Lemma mul_not_negative x y :
  not_negative x = true -> not_negative y = true -> not_negative (x * y)%float = true.
Proof.
  intros Hx Hy. unfold mul.
  destruct x as [sx|sx| |sx mx ex], y as [sy|sy| |sy my ey]; cbn in *;
    try reflexivity; try (destruct sx; try discriminate); try (destruct sy; try discriminate);
    try reflexivity.
  destruct (not_negative_round false (Zpos (mx * my)) (ex + ey) loc_Exact ltac:(lia));
    [assumption|discriminate].
Qed.

Lemma div_core_nonneg m1 e1 m2 e2 :
  0 <= fst (fst (SFdiv_core_binary prec emax (Zpos m1) e1 (Zpos m2) e2)).
Proof.
  unfold SFdiv_core_binary.
  set (s := e1 - e2 - _).
  set (m' := match s with Z.pos _ => Z.shiftl (Zpos m1) s | 0 => Zpos m1 | Z.neg _ => 0 end).
  assert (Hm' : 0 <= m').
  { unfold m'. destruct s; try lia. apply Z.shiftl_nonneg. lia. }
  pose proof (Z_div_mod m' (Zpos m2) ltac:(lia)) as DM.
  destruct (Z.div_eucl m' (Zpos m2)) as [q r]. cbn [fst]. nia.
Qed.

(** A quotient by a float above zero is not below zero. *)
Lemma div_not_negative x y :
  not_negative x = true -> (y >? zero)%float = true -> not_negative (x / y)%float = true.
Proof.
  intros Hx Hy. unfold div.
  destruct y as [sy|[|]| |[|] my ey]; try discriminate;
  destruct x as [sx|sx| |sx mx ex]; cbn in Hx |- *; try reflexivity;
    try (destruct sx; try discriminate; reflexivity).
  destruct sx; [discriminate|]. cbn [xorb].
  pose proof (div_core_nonneg mx ex my ey) as Q.
  destruct (SFdiv_core_binary prec emax (Zpos mx) ex (Zpos my) ey) as [[q e'] l].
  cbn [fst] in Q.
  destruct (not_negative_round false q e' l Q); [assumption|discriminate].
Qed.

Lemma below_not_negative X x : below X x -> not_negative x = true.
Proof. destruct x as [s|s| |[|] m e]; cbn; tauto. Qed.

Lemma not_negative_ltb x : not_negative x = true <-> ltb x zero = false.
Proof. destruct x as [s|[|]| |[|] m e]; cbn; intuition congruence. Qed.

Lemma leb_zero_not_negative x : leb zero x = true -> not_negative x = true.
Proof. destruct x as [s|[|]| |[|] m e]; cbn; congruence. Qed.

(** Multiplying by 1.0 is exact. *)
Lemma mul_one x : is_float x -> (x * Workshop.f1)%float = x.
Proof.
  intros Hx. rewrite f1_eq. unfold mul.
  destruct x as [s|s| |s m e]; cbn [SFmul]; try (now rewrite xorb_false_r);
    try reflexivity.
  rewrite xorb_false_r.
  apply bounded_iff in Hx. destruct Hx as [Hc He].
  change (Zpos (digits2_pos m)) with (Zdigits2 (Zpos m)) in Hc.
  assert (Em : Zpos (m * one_m) = Zpos m * 2 ^ 52) by (rewrite Pos2Z.inj_mul; reflexivity).
  rewrite Em. clear Em.
  unfold binary_round_aux, shr_fexp.
  assert (D : Zdigits2 (Zpos m * 2 ^ 52) = Zdigits2 (Zpos m) + 52)
    by (apply Zdigits2_shift; lia).
  rewrite D.
  replace (Zdigits2 (Zpos m) + 52 + (e + -52)) with (Zdigits2 (Zpos m) + e) by ring.
  rewrite Hc. replace (e - (e + -52)) with 52 by ring.
  pose proof (shr_spec (Zpos m * 2 ^ 52) loc_Exact (e + -52) 52 ltac:(lia)) as S1.
  cbn zeta in S1. destruct (shr _ (e + -52) 52) as [st1 e1].
  change (Z.max 0 52) with 52 in S1. destruct S1 as (E1 & Hm1 & Hex & _).
  rewrite Z.div_mul in Hm1 by lia.
  rewrite (Hex eq_refl) by (rewrite Hm1; reflexivity).
  rewrite Hm1. cbn [round_nearest_even].
  assert (E1' : e1 = e) by lia. clear E1. subst e1.
  rewrite Hc, Z.sub_diag. cbn [shr shr_record_of_loc shr_m].
  apply Z.leb_le in He. change (emax - prec) with 971. now rewrite He.
Qed.

End FloatSignFacts.

Module WorkshopRangeFacts.
Import Workshop WorkshopSpec WorkshopFacts FloatSpec FloatFacts FloatSign FloatSignFacts WorkshopRange.

Lemma f100_positive : (f100 >? zero)%float = true.
Proof. reflexivity. Qed.

Lemma f1000_positive : (f1000 >? zero)%float = true.
Proof. reflexivity. Qed.

Lemma in_range_not_negative o :
  in_range o ->
  not_negative (dry_of o) = true /\
  not_negative (pb_ton (metal_of o)) = true /\
  not_negative (zn_ton (metal_of o)) = true /\
  not_negative (ag_kg (metal_of o)) = true.
Proof.
  intros (Hw & Hf & Hm0 & Hm1 & Hpb & Hzn & Hag).
  assert (D : not_negative (dry_of o) = true).
  { unfold dry_of. apply mul_not_negative; [now apply leb_zero_not_negative|].
    apply (below_not_negative 1). rewrite f1_eq. apply sub_below.
    now apply fraction_below. }
  split; [exact D|]. unfold metal_of. cbn [pb_ton zn_ton ag_kg].
  repeat split.
  - apply mul_not_negative; [exact D|].
    apply div_not_negative; [now apply leb_zero_not_negative|exact f100_positive].
  - apply mul_not_negative; [exact D|].
    apply div_not_negative; [now apply leb_zero_not_negative|exact f100_positive].
  - apply div_not_negative; [|exact f1000_positive].
    apply mul_not_negative; [exact D|now apply leb_zero_not_negative].
Qed.

(** After the two [calculate_metrics] calls each of the two streams, and
    its metal content, holds the values computed from one of the two. *)
Lemma m2_stream_cases e h r :
  r = raw_ore e \/ r = concentrate e ->
  exists o, (o = streams h (raw_ore e) \/ o = streams h (concentrate e)) /\
            streams (metrics2 e h) r = with_dry o (dry_of o).
Proof.
  intros Hr. rewrite m2_streams.
  destruct (Nat.eqb_spec r (concentrate e)) as [->|N].
  - eexists. split; [right; reflexivity|reflexivity].
  - destruct Hr as [-> | ->]; [|contradiction]. rewrite Nat.eqb_refl.
    eexists. split; [left; reflexivity|reflexivity].
Qed.

Lemma m2_metal_cases e h r :
  r = raw_ore e \/ r = concentrate e ->
  exists o, (o = streams h (raw_ore e) \/ o = streams h (concentrate e)) /\
            metals (metrics2 e h) (metal_content (streams (metrics2 e h) r)) = metal_of o.
Proof.
  intros Hr. destruct (m2_stream_cases e h r Hr) as (o & Ho & ->).
  cbn [with_dry metal_content]. rewrite m2_metals.
  destruct (Nat.eqb_spec (metal_content o) (metal_content (streams h (concentrate e)))) as [E|N].
  - eexists. split; [right; reflexivity|reflexivity].
  - destruct Ho as [-> | ->]; [|contradiction]. rewrite Nat.eqb_refl.
    eexists. split; [left; reflexivity|reflexivity].
Qed.

Lemma ratio_not_negative a b :
  not_negative a = true -> (b >? zero)%float = true ->
  ltb (a / b * f100)%float zero = false.
Proof.
  intros Ha Hb. apply not_negative_ltb. apply mul_not_negative; [|reflexivity].
  now apply div_not_negative.
Qed.

(** X2.  With measurements in range on both streams and metrics starting
    at 0, no metric computed by [calculate_performance] is below zero. *)
Theorem metrics_not_negative (e : WorkshopShiftEntry) (h : heap) :
  in_range (raw e h) -> in_range (conc e h) -> perf e h = default_perf ->
  perf_not_negative (perf e (calculate_performance e h)).
Proof.
  intros Hr Hc Hd. rewrite cp_perf, Hd. unfold raw, conc in Hr, Hc.
  assert (R : forall o, o = streams h (raw_ore e) \/ o = streams h (concentrate e) ->
                        in_range o) by (intros o [-> | ->]; assumption).
  destruct (m2_stream_cases e h (concentrate e) (or_intror eq_refl)) as (oc & Hoc & Ec).
  destruct (m2_metal_cases e h (concentrate e) (or_intror eq_refl)) as (mc & Hmc & Emc).
  destruct (m2_stream_cases e h (raw_ore e) (or_introl eq_refl)) as (o & Ho & Er).
  pose proof (in_range_not_negative _ (R _ Hoc)) as (Cd & _).
  pose proof (in_range_not_negative _ (R _ Hmc)) as (_ & Cpb & Czn & Cag).
  destruct (R _ Hoc) as (_ & _ & _ & _ & Cg & _). apply leb_zero_not_negative in Cg.
  unfold perf_of, perf_not_negative, raw_metal, conc_metal, raw, conc.
  rewrite Emc, Ec, Er. cbn [with_dry dry_weight_ton pb_grade_pct].
  destruct (dry_of o >? zero)%float eqn:G; [|repeat split].
  cbn [yield_pct recovery_pb_pct recovery_zn_pct recovery_ag_pct enrichment_ratio_pb
       default_perf].
  split; [now apply ratio_not_negative|].
  do 3 (split; [match goal with |- context [if ?b then _ else _] => destruct b eqn:? end;
                [now apply ratio_not_negative|reflexivity]|]).
  match goal with |- context [if ?b then _ else _] => destruct b eqn:? end; [|reflexivity].
  apply not_negative_ltb. now apply div_not_negative.
Qed.

Lemma metrics_not_negative_witness :
  perf_not_negative (perf demo_entry (calculate_performance demo_entry demo_heap)).
Proof.
  apply metrics_not_negative; repeat split.
Defined.

(** X3.  The dry weight of a stream of finite wet weight at least 0 and
    moisture between 0 and 100 is a finite float at least 0. *)
Theorem dry_weight_not_negative (h : heap) (s : ref) :
  let o := streams (calculate_metrics s h) s in
  is_float (wet_weight_ton o) -> is_float (moisture_pct o) ->
  is_finite (wet_weight_ton o) = true ->
  (zero <=? wet_weight_ton o)%float = true ->
  (zero <=? moisture_pct o)%float = true ->
  (moisture_pct o <=? f100)%float = true ->
  (zero <=? dry_weight_ton o)%float = true /\ is_finite (dry_weight_ton o) = true.
Proof.
  intros o Hw Hm Hfin H0 Hm0 Hm100. subst o.
  destruct (cm_balanced s h) as [Bd _]. rewrite Bd.
  set (o := streams (calculate_metrics s h) s) in *.
  assert (Hh : below 1 (f1 - moisture_pct o / f100)%float).
  { rewrite f1_eq. apply sub_below. now apply fraction_below. }
  destruct (wet_weight_ton o) as [sw|[|]| |[|] mw ew]; try discriminate.
  - destruct (f1 - moisture_pct o / f100)%float as [s'| | |[|] mh eh];
      simpl in Hh; try contradiction; split; reflexivity.
  - pose proof (mul_below mw ew _ Hw Hh) as B. unfold mul.
    destruct (SFmul prec emax (S754_finite false mw ew) _) as [s'| | |[|] m' e'];
      simpl in B; try contradiction; split; reflexivity.
Qed.

Lemma dry_weight_not_negative_witness :
  let o := streams (calculate_metrics 0%nat demo_heap) 0%nat in
  (zero <=? dry_weight_ton o)%float = true /\ is_finite (dry_weight_ton o) = true.
Proof.
  apply (dry_weight_not_negative demo_heap 0%nat); reflexivity.
Defined.

(** X4.  A stream of moisture 0 keeps its weight: the dry weight is the wet
    weight, bit for bit; and with moisture 100 a finite wet weight leaves a
    dry weight equal to 0. *)
Theorem dry_weight_at_moisture_bounds (h : heap) (s : ref) :
  let o := streams (calculate_metrics s h) s in
  (is_float (wet_weight_ton o) -> moisture_pct o = zero ->
   dry_weight_ton o = wet_weight_ton o) /\
  (is_finite (wet_weight_ton o) = true -> moisture_pct o = f100 ->
   (dry_weight_ton o =? zero)%float = true).
Proof.
  intros o. subst o. destruct (cm_balanced s h) as [Bd _]. rewrite Bd.
  set (o := streams (calculate_metrics s h) s) in *. split.
  - intros Hw ->. change (f1 - zero / f100)%float with f1. now apply mul_one.
  - intros Hfin ->. change (f1 - f100 / f100)%float with zero.
    destruct (wet_weight_ton o) as [sw|[|]| |sw mw ew]; try discriminate; reflexivity.
Qed.

Lemma dry_weight_at_moisture_bounds_witness :
  let o := streams (calculate_metrics 1%nat demo_heap) 1%nat in
  dry_weight_ton o = wet_weight_ton o.
Proof.
  apply (proj1 (dry_weight_at_moisture_bounds demo_heap 1%nat)); reflexivity.
Defined.

(** X5.  Metrics are never reset: when the raw-ore dry weight is not above
    0 -- zero, negative or NaN -- the five metrics keep the values they had
    before the call, whatever those were. *)
Theorem metrics_kept_without_raw_ore (e : WorkshopShiftEntry) (h : heap) :
  (dry_weight_ton (raw e (calculate_performance e h)) >? zero)%float = false ->
  perf e (calculate_performance e h) = perf e h.
Proof.
  intros G. unfold raw in G. rewrite cp_streams in G.
  rewrite cp_perf. unfold perf_of, raw. now rewrite G.
Qed.

Lemma metrics_kept_without_raw_ore_witness :
  yield_pct (perf demo_entry (calculate_performance demo_entry stale_heap)) = of_Z 5.
Proof.
  rewrite (metrics_kept_without_raw_ore demo_entry stale_heap); reflexivity.
Defined.

(** X6.  [calculate_performance] assigns nothing outside the two streams,
    their metal contents and the performance object of the entry. *)
Theorem calculate_performance_frame (e : WorkshopShiftEntry) (h : heap) :
  let h' := calculate_performance e h in
  (forall r, r <> raw_ore e -> r <> concentrate e -> streams h' r = streams h r) /\
  (forall m, m <> metal_content (raw e h) -> m <> metal_content (conc e h) ->
     metals h' m = metals h m) /\
  (forall p, p <> performance e -> perfs h' p = perfs h p).
Proof.
  intros h'. subst h'. unfold raw, conc. repeat split.
  - intros r H1 H2. rewrite cp_streams, m2_streams.
    apply Nat.eqb_neq in H1, H2. now rewrite H1, H2.
  - intros m H1 H2. rewrite cp_metals, m2_metals.
    apply Nat.eqb_neq in H1, H2. now rewrite H1, H2.
  - intros p Hp. now apply cp_perfs_other.
Qed.

Lemma calculate_performance_frame_witness :
  streams (calculate_performance demo_entry demo_heap) 2%nat = streams demo_heap 2%nat.
Proof.
  apply (proj1 (calculate_performance_frame demo_entry demo_heap)); discriminate.
Defined.

End WorkshopRangeFacts.

Module ExtractTraceFacts.
Import Accounting ExtractSpec ExtractTrace ExtractFacts Re ReSpec ReFacts AccountingFacts.


Lemma get_cell_ext rt df df' r c :
  iloc df r c = iloc df' r c -> get_cell rt df r c = get_cell rt df' r c.
Proof. intros H. unfold get_cell. now rewrite H. Qed.

(** X7.  A block reads its own cells only: sheets that agree on rows 4 to 7
    of the four columns of a shift give the same lines and the same
    upload for it. *)
Theorem shift_block_independent (rt : runtime) (post : payload -> response)
    (df df' : grid) (date_str : str) (sh : shift) :
  (forall r c, (4 <= r <= 7)%nat -> (col_start sh <= c <= col_start sh + 3)%nat ->
     iloc df r c = iloc df' r c) ->
  shift_events rt post df date_str sh = shift_events rt post df' date_str sh.
Proof.
  intros H. unfold shift_events.
  repeat match goal with
  | |- context [get_cell rt df ?r ?c] =>
      rewrite (get_cell_ext rt df df' r c) by (apply H; lia)
  end.
  reflexivity.
Qed.

Lemma shift_block_independent_witness :
  shift_events Demo.rt accept (sheet_of (CFloat (of_Z 3))) (lit "2025-08-19") first_shift =
  shift_events Demo.rt accept (List.repeat (CStr (lit "title")) 5 :: List.tl (sheet_of (CFloat (of_Z 3))))
    (lit "2025-08-19") first_shift.
Proof.
  apply shift_block_independent.
  intros r c Hr Hc. do 4 (destruct r as [|r]; [lia|]). reflexivity.
Defined.

Lemma posts_app a b : posts (a ++ b) = posts a ++ posts b.
Proof.
  induction a as [|x a IH]; [reflexivity|]. destruct x; cbn [posts app]; now rewrite ?IH.
Qed.

Lemma shift_posts rt post post' df date_str sh :
  posts (shift_events rt post df date_str sh) = posts (shift_events rt post' df date_str sh) /\
  (List.length (posts (shift_events rt post df date_str sh)) <= 1)%nat /\
  forall p, In p (posts (shift_events rt post df date_str sh)) -> shiftDate p = date_str.
Proof.
  unfold shift_events. destruct (_ <=? zero)%float.
  - cbn. repeat split; auto. intros p [].
  - cbn [posts].
    assert (E : forall q r, posts (match q with
        | Status code text => if (code =? 200)%Z || (code =? 201)%Z then []
                              else [PrintFailed code text]
        | RequestError => [PrintRequestError] end) = r -> r = []).
    { intros q r <-. destruct q as [code text|]; [destruct (_ || _)|]; reflexivity. }
    rewrite (E (post _) _ eq_refl), (E (post' _) _ eq_refl).
    repeat split; auto. intros p [<-|[]]. reflexivity.
Qed.

(** X8.  What [parse_file] uploads does not depend on what the service
    answers: one failed upload stops neither the file nor the other
    shifts.  It uploads at most one payload per shift, each with the
    resolved date, and nothing when the sheet cannot be read or the date
    does not resolve. *)
Theorem uploads_independent_of_answers (rt : runtime)
    (post post' : payload -> response) (read_excel : result grid) (filepath : str) :
  let sent := posts (parse_file rt post read_excel filepath) in
  sent = posts (parse_file rt post' read_excel filepath) /\
  (List.length sent <= 3)%nat /\
  (forall p, In p sent ->
     get_date_from_filename rt filepath = Ok (Some (shiftDate p))) /\
  ((forall df, read_excel <> Ok df) \/
   (forall d, get_date_from_filename rt filepath <> Ok (Some d)) -> sent = []).
Proof.
  intros sent. subst sent. unfold parse_file.
  destruct read_excel as [df|e]; cbn [bind].
  2:{ repeat split; auto; try (cbn; lia); try (intros p []). }
  destruct (get_date_from_filename rt filepath) as [[d|]|e]; cbn [bind].
  - cbn [posts SHIFTS flat_map]. rewrite !app_nil_r, !posts_app.
    pose proof (shift_posts rt post post' df d (mkShift [30002; 29677]%N 1)) as (A1 & B1 & C1).
    pose proof (shift_posts rt post post' df d (mkShift [20057; 29677]%N 5)) as (A2 & B2 & C2).
    pose proof (shift_posts rt post post' df d (mkShift [19993; 29677]%N 9)) as (A3 & B3 & C3).
    split; [now rewrite A1, A2, A3|]. split; [rewrite !length_app; lia|]. split.
    + intros p Hp. rewrite !in_app_iff in Hp.
      destruct Hp as [Hp|[Hp|Hp]]; [rewrite (C1 p Hp) | rewrite (C2 p Hp) | rewrite (C3 p Hp)];
        reflexivity.
    + intros [H|H]; [exfalso; now apply (H df) | exfalso; now apply (H d)].
  - repeat split; auto; try (cbn; lia); try (intros p []).
  - repeat split; auto; try (cbn; lia); try (intros p []).
Qed.

Lemma uploads_independent_of_answers_witness :
  posts (parse_file Demo.rt accept (Raise IOError) (lit "a/8.19.xlsx")) = [].
Proof.
  refine (proj2 (proj2 (proj2 (uploads_independent_of_answers Demo.rt accept accept
            (Raise IOError) (lit "a/8.19.xlsx")))) _).
  left. intros df. discriminate.
Defined.

End ExtractTraceFacts.

Module ResolverFacts.
Import Accounting Re ReSpec ReFacts AccountingFacts PathSpec.

Lemma search_short_none_inv rt s :
  search rt short_re s = None -> forall k, short_at rt (skipn k s) = None.
Proof.
  intros H k. destruct (Nat.le_gt_cases k (List.length s)) as [L|G].
  - pose proof (search_from_none_inv rt short_re s s 0 H k L) as M.
    rewrite match_short in M.
    destruct (short_at rt (skipn k s)) as [[mo dy]|]; [discriminate|reflexivity].
  - apply short_at_nil. lia.
Qed.

(** X9.  The resolver gives no date exactly when the file name holds
    neither eight consecutive digits nor a short date. *)
Theorem unresolved_date (rt : runtime) (filepath : str) :
  let filename := Path.basename filepath in
  get_date_from_filename rt filepath = Ok None <->
  (forall k, digits_at rt 8 (skipn k filename) = false) /\
  (forall k, short_at rt (skipn k filename) = None).
Proof.
  intros filename. unfold get_date_from_filename. fold filename. split.
  - destruct (search rt long_re filename) as [gs|] eqn:EL.
    + apply search_long_inv in EL. destruct EL as (k & _ & _ & ->). discriminate.
    + destruct (search rt short_re filename) as [gs|] eqn:ES.
      * apply search_short_inv in ES. destruct ES as (k & mo & dy & _ & ->).
        destruct (py_int rt mo); [|discriminate]. destruct (py_int rt dy); discriminate.
      * intros _. split; [now apply search_long_none_inv|now apply search_short_none_inv].
  - intros [HL HS]. now rewrite search_long_none, search_short_none.
Qed.

Lemma short_at_bound rt s mo dy :
  short_at rt s = Some (mo, dy) ->
  (List.length mo + 1 + List.length dy <= List.length s)%nat.
Proof.
  intros H. destruct (short_at_lengths rt s mo dy H) as (Emo & Edy & Lmo & Ldy & _).
  apply (f_equal (@List.length N)) in Edy. rewrite length_firstn, length_skipn in Edy. lia.
Qed.

Lemma py_int_ok rt s :
  (List.length s <= 640)%nat -> exists n, py_int rt s = Ok n.
Proof.
  intros L. unfold py_int.
  destruct (int_limit_threshold rt) as [Z|G].
  - rewrite Z. cbn. eexists. reflexivity.
  - assert (E : (int_max_str_digits rt <? N.of_nat (List.length s))%N = false)
      by (apply N.ltb_ge; lia).
    rewrite E, andb_false_r. eexists. reflexivity.
Qed.

(** X10.  On a file name of at most 640 characters the resolver never
    raises: the numerals it converts are within the limit of [int]. *)
Theorem resolver_never_raises (rt : runtime) (filepath : str) :
  (List.length (Path.basename filepath) <= 640)%nat ->
  exists r, get_date_from_filename rt filepath = Ok r.
Proof.
  intros L. unfold get_date_from_filename.
  set (filename := Path.basename filepath) in *.
  destruct (search rt long_re filename) as [gs|] eqn:EL.
  - apply search_long_inv in EL. destruct EL as (k & _ & _ & ->). eexists. reflexivity.
  - destruct (search rt short_re filename) as [gs|] eqn:ES; [|eexists; reflexivity].
    apply search_short_inv in ES. destruct ES as (k & mo & dy & Hk & ->).
    pose proof (short_at_bound _ _ _ _ Hk) as B. rewrite length_skipn in B.
    destruct (py_int_ok rt mo ltac:(lia)) as (m & ->).
    destruct (py_int_ok rt dy ltac:(lia)) as (d & ->).
    eexists. reflexivity.
Qed.

Lemma resolver_never_raises_witness :
  exists r, get_date_from_filename Demo.rt (lit "data/8/8.19.xlsx") = Ok r.
Proof.
  apply resolver_never_raises. vm_compute. lia.
Defined.

(** ** Paths *)

Lemma break_slash_app a b :
  no_slash a = true -> Path.break_slash (a ++ Path.slash :: b) = (a, Path.slash :: b).
Proof.
  unfold no_slash. induction a as [|c a IH]; intros H.
  - cbn. reflexivity.
  - cbn [forallb] in H. apply andb_true_iff in H. destruct H as [Hc H].
    cbn [app Path.break_slash]. apply negb_true_iff in Hc. rewrite Hc.
    now rewrite IH.
Qed.

Lemma no_slash_rev a : no_slash a = true -> no_slash (rev a) = true.
Proof.
  unfold no_slash. rewrite !forallb_forall. intros H c Hc. apply H. now apply in_rev.
Qed.

Lemma split_join p name :
  no_slash name = true ->
  Path.split (p ++ Path.slash :: name) = (p ++ [Path.slash], name).
Proof.
  intros H. unfold Path.split.
  rewrite rev_app_distr. cbn [rev]. rewrite <- app_assoc. cbn [app].
  rewrite break_slash_app by now apply no_slash_rev.
  now rewrite rev_involutive, <- (rev_unit p Path.slash), rev_involutive.
Qed.

Lemma basename_join p name :
  no_slash name = true -> Path.basename (p ++ Path.slash :: name) = name.
Proof. intros H. unfold Path.basename. now rewrite split_join. Qed.

Lemma dirname_join p d name :
  no_slash name = true -> no_slash d = true -> d <> [] ->
  Path.dirname (p ++ Path.slash :: d ++ Path.slash :: name) = p ++ Path.slash :: d.
Proof.
  intros Hn Hd Hne. unfold Path.dirname.
  replace (p ++ Path.slash :: d ++ Path.slash :: name)
    with ((p ++ Path.slash :: d) ++ Path.slash :: name)
    by (rewrite <- app_assoc; reflexivity).
  rewrite split_join by assumption. cbn [fst].
  set (q := p ++ Path.slash :: d).
  rewrite rev_unit. cbn [Path.lstrip_slash]. rewrite N.eqb_refl.
  assert (Hq : exists c t, rev q = c :: t /\ N.eqb c Path.slash = false).
  { unfold q. rewrite rev_app_distr. cbn [rev]. rewrite <- app_assoc.
    destruct (rev d) as [|c rd] eqn:E.
    - apply (f_equal (@rev N)) in E. rewrite rev_involutive in E. contradiction.
    - exists c, (rd ++ [Path.slash] ++ rev p). split; [reflexivity|].
      pose proof (no_slash_rev d Hd) as H. rewrite E in H. unfold no_slash in H.
      cbn [forallb] in H. apply andb_true_iff in H. destruct H as [H _].
      now apply negb_true_iff. }
  destruct Hq as (c & t & Eq & Hc). rewrite Eq. cbn [Path.lstrip_slash]. rewrite Hc.
  rewrite <- Eq. apply rev_involutive.
Qed.

(** X11.  The resolver looks at the file name and at the name of the
    directory that holds the file, and at nothing above: two paths ending
    in the same directory and file give the same result. *)
Theorem resolver_reads_two_components (rt : runtime) (p p' d name : str) :
  no_slash name = true -> no_slash d = true -> d <> [] ->
  get_date_from_filename rt (p ++ Path.slash :: d ++ Path.slash :: name) =
  get_date_from_filename rt (p' ++ Path.slash :: d ++ Path.slash :: name).
Proof.
  intros Hn Hd Hne. unfold get_date_from_filename.
  rewrite !dirname_join by assumption.
  replace (p ++ Path.slash :: d ++ Path.slash :: name)
    with ((p ++ Path.slash :: d) ++ Path.slash :: name)
    by (rewrite <- app_assoc; reflexivity).
  replace (p' ++ Path.slash :: d ++ Path.slash :: name)
    with ((p' ++ Path.slash :: d) ++ Path.slash :: name)
    by (rewrite <- app_assoc; reflexivity).
  rewrite !basename_join by assumption. reflexivity.
Qed.

Lemma resolver_reads_two_components_witness :
  get_date_from_filename Demo.rt (lit "2026" ++ Path.slash :: lit "8" ++ Path.slash :: lit "8.19.xlsx") =
  get_date_from_filename Demo.rt (lit "2025" ++ Path.slash :: lit "8" ++ Path.slash :: lit "8.19.xlsx").
Proof.
  apply resolver_reads_two_components; [reflexivity|reflexivity|discriminate].
Defined.

End ResolverFacts.

Module AugustFacts.
Import August ExtractTrace Re.

Lemma get_val_ok rt df r c x :
  get_val rt df r c = Ok x ->
  exists v, iloc df r c = Ok v /\
            x = match py_float rt v with Ok y => y | Raise _ => zero end.
Proof.
  unfold get_val. destruct (iloc df r c) as [v|e]; cbn [bind]; [|discriminate].
  intros H. exists v. split; [reflexivity|].
  destruct (py_float rt v); now injection H.
Qed.

Lemma shift_of_code_cases code :
  shift_of_code code = morning \/ shift_of_code code = midday \/ shift_of_code code = night.
Proof.
  unfold shift_of_code.
  destruct (str_eqb code (lit "1")); auto.
  destruct (str_eqb code (lit "2")); auto.
  destruct (str_eqb code (lit "3")); auto.
Qed.

(** X12.  A payload of [import_august.parse_file] comes from a sheet that
    was read and holds all nine grade cells; each grade is [float] of its
    cell -- NaN for an empty cell -- or 0.0 where [float] rejects the
    cell; the run time is 8, the wet weight, the moisture and the fineness
    are 0, and the shift is one of the three names. *)
Theorem august_payload (rt : runtime) (repr : cell -> str) (read_excel : result grid)
    (file_path : str) (p : payload) :
  parse_file rt repr read_excel file_path = inl p ->
  exists df, read_excel = Ok df /\
    (exists head y m d c mo dy,
       iloc df 1 0 = Ok head /\
       search rt header_re (py_str repr head) = Some [y; m; d; c] /\
       py_int rt m = Ok mo /\ py_int rt d = Ok dy /\
       shiftDate p = y ++ lit "-" ++ format_02d mo ++ lit "-" ++ format_02d dy /\
       shiftType p = shift_of_code c) /\
    runTime p = JInt 8 /\ r_wetWeight (rawOre p) = JInt 0 /\
    r_moisture (rawOre p) = JInt 0 /\ t_fineness (tailings p) = JInt 0 /\
    (shiftType p = morning \/ shiftType p = midday \/ shiftType p = night) /\
    Forall2 (fun rc g => exists v, iloc df (fst rc) (snd rc) = Ok v /\
               g = JFloat (match py_float rt v with Ok y => y | Raise _ => zero end))
      grade_cells (grades p).
Proof.
  unfold parse_file. destruct read_excel as [df|e]; [|discriminate].
  destruct (iloc df 1 0) as [head|e] eqn:Eh; [|discriminate].
  destruct (search rt header_re (py_str repr head)) as [[|y [|m [|d [|c [|? ?]]]]]|] eqn:Es;
    try discriminate.
  destruct (py_int rt m) as [mo|] eqn:Em; [|discriminate].
  destruct (py_int rt d) as [dy|] eqn:Ed; [|discriminate]. cbn [bind].
  destruct (get_val rt df 4 1) as [x1|] eqn:E1; [|discriminate].
  destruct (get_val rt df 4 2) as [x2|] eqn:E2; [|discriminate].
  destruct (get_val rt df 4 3) as [x3|] eqn:E3; [|discriminate].
  destruct (get_val rt df 5 1) as [x4|] eqn:E4; [|discriminate].
  destruct (get_val rt df 5 2) as [x5|] eqn:E5; [|discriminate].
  destruct (get_val rt df 5 3) as [x6|] eqn:E6; [|discriminate].
  destruct (get_val rt df 6 1) as [x7|] eqn:E7; [|discriminate].
  destruct (get_val rt df 6 2) as [x8|] eqn:E8; [|discriminate].
  destruct (get_val rt df 6 3) as [x9|] eqn:E9; [|discriminate].
  cbn [bind]. intros [= <-]. exists df. split; [reflexivity|].
  split; [exists head, y, m, d, c, mo, dy; repeat split; assumption|].
  cbn [runTime rawOre tailings r_wetWeight r_moisture t_fineness shiftType].
  do 4 (split; [reflexivity|]). split; [apply shift_of_code_cases|].
  unfold grade_cells, grades. cbn.
  repeat (apply Forall2_cons; [cbn [fst snd]|]); try apply Forall2_nil;
    match goal with
    | H : get_val rt df ?r ?c = Ok ?x |- exists v, iloc df ?r ?c = Ok v /\ JFloat ?x = _ =>
        destruct (get_val_ok rt df r c x H) as (v & Hv & ->); exists v; split; auto
    end.
Qed.

Lemma august_payload_witness :
  match parse_file Demo.rt (fun _ => []) (Ok august_sheet) august_path with
  | inl p => r_znGrade (rawOre p) = JFloat nan /\ c_znGrade (concentrate p) = JFloat zero
  | inr _ => False
  end.
Proof.
  destruct (parse_file Demo.rt (fun _ => []) (Ok august_sheet) august_path)
    as [p|n] eqn:E.
  - destruct (august_payload _ _ _ _ p E) as (df & Hdf & _ & _ & _ & _ & _ & _ & F).
    injection Hdf as <-.
    inversion F as [|? ? ? ? _ F1]; subst. inversion F1 as [|? ? ? ? H2 F2]; subst.
    inversion F2 as [|? ? ? ? _ F3]; subst. inversion F3 as [|? ? ? ? _ F4]; subst.
    inversion F4 as [|? ? ? ? H5 _]; subst.
    destruct H2 as (v2 & I2 & ->). destruct H5 as (v5 & I5 & ->).
    injection I2 as <-. injection I5 as <-. split; reflexivity.
  - vm_compute in E. discriminate E.
Defined.

End AugustFacts.

Module NumeralFacts.
Import Accounting ReSpec ReFacts.

Lemma digit_value_ascii rt d : (d < 10)%N -> digit_value rt (48 + d) = d.
Proof.
  intros H. unfold digit_value. rewrite decimal_ascii by lia. unfold ascii_decimal.
  destruct (N.leb_spec 48 (48 + d)); [|lia]. destruct (N.leb_spec (48 + d) 57); [|lia].
  cbn [andb]. lia.
Qed.

Lemma fold_value_app rt a c acc :
  fold_left (fun x y => (10 * x + digit_value rt y)%N) (a ++ [c]) acc =
  (10 * fold_left (fun x y => (10 * x + digit_value rt y)%N) a acc + digit_value rt c)%N.
Proof. now rewrite fold_left_app. Qed.

Lemma numeral_aux_value rt fuel n :
  (n < 10 ^ N.of_nat fuel)%N ->
  fold_left (fun x y => (10 * x + digit_value rt y)%N) (numeral_aux fuel n) 0%N = n.
Proof.
  revert n. induction fuel as [|fuel IH]; intros n H.
  - cbn in H. assert (n = 0)%N by lia. now subst.
  - cbn [numeral_aux]. destruct (N.ltb_spec n 10) as [L|G].
    + cbn [fold_left]. rewrite digit_value_ascii by assumption. lia.
    + rewrite fold_value_app, IH.
      * rewrite digit_value_ascii by (apply N.mod_lt; lia).
        rewrite (N.div_mod n 10) at 3 by lia. reflexivity.
      * apply N.Div0.div_lt_upper_bound.
        rewrite Nat2N.inj_succ, N.pow_succ_r' in H. assumption.
Qed.

Lemma numeral_aux_length_le fuel n k :
  (n < 10 ^ N.of_nat k)%N -> (1 <= k)%nat -> (List.length (numeral_aux fuel n) <= k)%nat.
Proof.
  revert n k. induction fuel as [|fuel IH]; intros n k H Hk; [cbn; lia|].
  cbn [numeral_aux]. destruct (N.ltb_spec n 10) as [L|G]; [cbn; lia|].
  rewrite length_app. cbn [List.length].
  destruct k as [|[|k]]; [lia| cbn in H; lia |].
  specialize (IH (n / 10)%N (S k)).
  assert (n / 10 < 10 ^ N.of_nat (S k))%N.
  { apply N.Div0.div_lt_upper_bound.
    rewrite (Nat2N.inj_succ (S k)), N.pow_succ_r' in H. assumption. }
  specialize (IH H0 ltac:(lia)). lia.
Qed.

Lemma numeral_value rt n :
  fold_left (fun x y => (10 * x + digit_value rt y)%N) (numeral n) 0%N = n.
Proof.
  unfold numeral. apply numeral_aux_value.
  destruct n as [|p]; [cbn; lia|].
  pose proof (N.log2_spec (Npos p) ltac:(lia)) as [_ U].
  rewrite Nat2N.inj_succ, N2Nat.id.
  eapply N.lt_le_trans; [exact U|].
  apply N.pow_le_mono_l. lia.
Qed.

(** X13.  The month and the day of a resolved date read back as the numbers
    they were written from: [int] of a numeral padded to two digits is the
    number, below the limit of [int]. *)
Theorem format_02d_round_trip (rt : runtime) (n : N) :
  (n < 10 ^ 640)%N -> py_int rt (format_02d n) = Ok n.
Proof.
  intros H. unfold py_int.
  assert (L : (List.length (format_02d n) <= 640)%nat).
  { unfold format_02d. rewrite length_app, repeat_length.
    pose proof (numeral_aux_length_le (S (N.to_nat (N.log2 n))) n 640 H ltac:(lia)) as B.
    unfold numeral. lia. }
  assert (E : (negb (int_max_str_digits rt =? 0) &&
               (int_max_str_digits rt <? N.of_nat (List.length (format_02d n))))%N = false).
  { destruct (int_limit_threshold rt) as [Z|G].
    - rewrite Z. reflexivity.
    - apply andb_false_iff. right. apply N.ltb_ge. lia. }
  rewrite E. f_equal. unfold format_02d. rewrite fold_left_app.
  assert (Z0 : forall k, fold_left (fun x y => (10 * x + digit_value rt y)%N)
                           (repeat 48%N k) 0%N = 0%N).
  { assert (D0 : digit_value rt 48 = 0%N) by (apply (digit_value_ascii rt 0); lia).
    induction k as [|k IH]; [reflexivity|]. cbn [repeat fold_left].
    rewrite D0. exact IH. }
  rewrite Z0. apply numeral_value.
Qed.

Lemma format_02d_round_trip_witness : py_int Demo.rt (format_02d 8) = Ok 8%N.
Proof.
  apply format_02d_round_trip. vm_compute. reflexivity.
Defined.

End NumeralFacts.
